(** * Quantum Battleships with partial NOT gates

    A shallow embedding of the main loop of
    [community/games/battleships_with_partial_NOT_gates.ipynb]: the
    construction of one quantum circuit per player from the bomb ledger
    and the ship placement, the ideal semantics of the gates the loop
    emits ([u3] and [measure]), and the statistics of the sampled result.

    Conventions.
    - Python [int]s that the loop reads ([bomb[X][Y]], [shipPos[X][Y]],
      [position], [ship], [player]) are natural numbers: the counts
      start at zero, and a placement is only ever compared for equality
      with a [position] drawn from [range(5)].
    - Python lists are [list]s, an index out of range is [None]
      ([IndexError]).
    - Python [float]s ([frac], [frac * math.pi]) are idealised as real
      numbers, and the backend is the noiseless simulator.
    - [display_grid] and [ask_for_bombs] live in
      [game_engines/battleships_engine.py]; the notebook only calls
      them. *)

From Stdlib Require Import Reals ZArith List Arith Bool Lia Lra.
Import ListNotations.

Local Open Scope R_scope.

(** ** Python control flow with failure *)

Module Py.

Definition bind {A B : Type} (m : option A) (k : A -> option B) : option B :=
  match m with
  | Some a => k a
  | None => None
  end.

(** [for x in xs: body], threading the mutated object. *)
Fixpoint for_each {A S : Type} (xs : list A) (body : A -> S -> option S)
    (s : S) : option S :=
  match xs with
  | [] => Some s
  | x :: rest => bind (body x s) (for_each rest body)
  end.

Definition range (n : nat) : list nat := seq 0 n.

End Py.

Notation "x <- m ;; k" := (Py.bind m (fun x => k))
  (at level 61, m at next level, right associativity).

(** ** Amplitudes *)

Module Amp.

(** A complex number as real and imaginary part. *)
Definition C : Type := (R * R)%type.

Definition Czero : C := (0, 0).
Definition Cone : C := (1, 0).
Definition Cadd (a b : C) : C := (fst a + fst b, snd a + snd b).
Definition Cmul (a b : C) : C :=
  (fst a * fst b - snd a * snd b, fst a * snd b + snd a * fst b).
Definition Copp (a : C) : C := (- fst a, - snd a).
Definition Creal (r : R) : C := (r, 0).
(** e^{i t} *)
Definition Cexpi (t : R) : C := (cos t, sin t).
(** |a|^2 *)
Definition Cnorm2 (a : C) : R := Rsqr (fst a) + Rsqr (snd a).

End Amp.

(** ** Circuits *)

(** State of one qubit: amplitudes of |0> and |1>. *)
Record qubit : Type := mkQubit { amp0 : Amp.C; amp1 : Amp.C }.

(** A fresh [QuantumRegister] holds every qubit in |0>. *)
Definition ket0 : qubit := mkQubit Amp.Cone Amp.Czero.

(** The instructions the main loop appends to a [QuantumCircuit]. *)
Inductive instr : Type :=
| u3 (theta phi lam : R) (q : nat)
| measure (q c : nat).

Definition circuit : Type := list instr.

(** The single-qubit gate [u3(theta, phi, lam)]:
    [[cos(theta/2), -e^{i lam} sin(theta/2)],
     [e^{i phi} sin(theta/2), e^{i (phi+lam)} cos(theta/2)]]. *)
Definition apply_u3 (theta phi lam : R) (s : qubit) : qubit :=
  let c := Amp.Creal (cos (theta / 2)) in
  let sn := Amp.Creal (sin (theta / 2)) in
  mkQubit
    (Amp.Cadd (Amp.Cmul c (amp0 s))
              (Amp.Copp (Amp.Cmul (Amp.Cmul (Amp.Cexpi lam) sn) (amp1 s))))
    (Amp.Cadd (Amp.Cmul (Amp.Cmul (Amp.Cexpi phi) sn) (amp0 s))
              (Amp.Cmul (Amp.Cmul (Amp.Cexpi (phi + lam)) c) (amp1 s))).

(** Probability that a measurement of the qubit yields 1. *)
Definition prob1 (s : qubit) : R := Amp.Cnorm2 (amp1 s).

Definition upd {A : Type} (f : nat -> A) (i : nat) (a : A) : nat -> A :=
  fun j => if Nat.eqb j i then a else f j.

(** Ideal execution: the gates of this program act on one qubit each,
    so the register stays a product of single-qubit states.  [exec]
    returns, for each classical bit, the probability that a shot writes
    1 into it ([None] when nothing was measured into the bit). *)
Fixpoint exec (qc : circuit) (st : nat -> qubit) (cl : nat -> option R)
    : nat -> option R :=
  match qc with
  | [] => cl
  | u3 theta phi lam q :: rest =>
      exec rest (upd st q (apply_u3 theta phi lam (st q))) cl
  | measure q c :: rest =>
      exec rest st (upd cl c (Some (prob1 (st q))))
  end.

Definition measured (qc : circuit) (c : nat) : option R :=
  exec qc (fun _ => ket0) (fun _ => None) c.

(** Sum of the [theta] angles of the gates applied to qubit [q]. *)
Fixpoint rotation_on (qc : circuit) (q : nat) : R :=
  match qc with
  | [] => 0
  | u3 theta _ _ q' :: rest =>
      (if Nat.eqb q' q then theta else 0) + rotation_on rest q
  | measure _ _ :: rest => rotation_on rest q
  end.

(** ** The main loop: one circuit per player *)

(** [# add the bombs (of the opposing player)] *)
Definition add_bombs (bomb shipPos : list (list nat)) (player : nat)
    (qc : circuit) : option circuit :=
  Py.for_each (Py.range 5) (fun position qc =>
    row <- nth_error bomb ((player + 1) mod 2) ;;
    count <- nth_error row position ;;
    Py.for_each (Py.range count) (fun _ qc =>
      Py.for_each [0; 1; 2]%nat (fun ship qc =>
        ships <- nth_error shipPos player ;;
        s <- nth_error ships ship ;;
        if Nat.eqb position s then
          let frac := 1 / INR (ship + 1) in
          Some (qc ++ [u3 (frac * PI) 0 0 position])
        else Some qc) qc) qc) qc.

(** [# Finally, measure them] *)
Definition add_measures (qc : circuit) : option circuit :=
  Py.for_each (Py.range 5) (fun position qc =>
    Some (qc ++ [measure position position])) qc.

(** Body of [for player in range(2)]. *)
Definition build_circuit (bomb shipPos : list (list nat)) (player : nat)
    : option circuit :=
  qc <- add_bombs bomb shipPos player [] ;;
  add_measures qc.

(** The list [qc] handed to [execute]. *)
Definition build_circuits (bomb shipPos : list (list nat))
    : option (list circuit) :=
  Py.for_each (Py.range 2) (fun player qcs =>
    qc <- build_circuit bomb shipPos player ;;
    Some (qcs ++ [qc])) [].

(** Probability that a shot of player's circuit reads 1 at [position]. *)
Definition p_success (bomb shipPos : list (list nat)) (player position : nat)
    : option R :=
  qc <- build_circuit bomb shipPos player ;;
  measured qc position.

(** [(player+1)%2] *)
Definition opponent (player : nat) : nat := (player + 1) mod 2.

(** [bomb[X][Y]]: the number of times position [Y] has been bombed by
    player [X+1]. *)
Definition attacks_on (bomb : list (list nat)) (attacker position : nat)
    : option nat :=
  row <- nth_error bomb attacker ;;
  nth_error row position.

(** [l[i] = a] for an index in range. *)
Fixpoint set_nth {A : Type} (l : list A) (i : nat) (a : A) : list A :=
  match l, i with
  | [], _ => []
  | _ :: t, O => a :: t
  | h :: t, S i' => h :: set_nth t i' a
  end.

(** The ledger with [bomb[attacker][position]] set to [count]. *)
Definition set_count (bomb : list (list nat)) (attacker position count : nat)
    : list (list nat) :=
  match nth_error bomb attacker with
  | Some row => set_nth bomb attacker (set_nth row position count)
  | None => bomb
  end.

(** [bomb = [ [0]*5 for _ in range(2)]] *)
Definition bomb_init : list (list nat) := repeat (repeat 0%nat 5) 2.

(** [frac = 1/(ship+1)]; [ship+1] is the order index of the ship. *)
Definition frac (ship : nat) : R := 1 / INR (ship + 1).

(** [shipPos[player][ship]] *)
Definition ship_at (shipPos : list (list nat)) (player ship : nat) : option nat :=
  ships <- nth_error shipPos player ;;
  nth_error ships ship.

(** ** Invariants of the data the loop receives *)

Fixpoint distinct (l : list nat) : bool :=
  match l with
  | [] => true
  | x :: rest => negb (existsb (Nat.eqb x) rest) && distinct rest
  end.

(** Every player has three ships, on three distinct positions. *)
Definition placement_ok (shipPos : list (list nat)) : bool :=
  forallb (fun ships => Nat.eqb (length ships) 3 && distinct ships) shipPos.

(** Every row of the ledger has the five positions of the board. *)
Definition ledger_ok (bomb : list (list nat)) : bool :=
  forallb (fun row => Nat.eqb (length row) 5) bomb.

(** ** Closed form of the loops *)

(** Gates one bomb at [position] adds: the [for ship in [0,1,2]] loop. *)
Definition ship_gates (ships : list nat) (position : nat) : circuit :=
  flat_map (fun ship =>
    match nth_error ships ship with
    | Some s =>
        if Nat.eqb position s then [u3 (1 / INR (ship + 1) * PI) 0 0 position]
        else []
    | None => []
    end) [0; 1; 2]%nat.

(** Gates of all bombs at [position]: the [for n in range(...)] loop. *)
Definition position_gates (ships : list nat) (count position : nat) : circuit :=
  flat_map (fun _ => ship_gates ships position) (Py.range count).

(** Gates of the whole [for position in range(5)] loop. *)
Definition bomb_gates (ships row : list nat) : circuit :=
  flat_map (fun position => position_gates ships (nth position row 0%nat) position)
    (Py.range 5).

Definition measure_gates : circuit :=
  flat_map (fun position => [measure position position]) (Py.range 5).

(** The state a rotation by [a] around the Y axis makes of |0>. *)
Definition ry_state (a : R) : qubit :=
  mkQubit (Amp.Creal (cos (a / 2))) (Amp.Creal (sin (a / 2))).

(** A gate as the loop emits it: [u3(theta, 0.0, 0.0, q)]. *)
Definition is_ry (i : instr) : Prop :=
  match i with
  | u3 _ phi lam _ => phi = 0 /\ lam = 0
  | measure _ _ => False
  end.

(** [sin^2(rotation / 2)] *)
Definition sin2_half (rotation : R) : R := Rsqr (sin (rotation / 2)).

(** The fraction of a full flip one bomb at [position] applies: the sum
    of [1/(ship+1)] over the ships the [if] of the inner loop finds
    there. *)
Definition flip_fraction (ships : list nat) (position : nat) : R :=
  fold_right Rplus 0
    (map (fun ship =>
       match nth_error ships ship with
       | Some s => if Nat.eqb position s then 1 / INR (ship + 1) else 0
       | None => 0
       end) [0; 1; 2]%nat).

(** ** Sampling *)

(** One shot is the content of the classical register, bit [c] at
    index [c]. *)
Definition shot : Type := list bool.

(** A shot the ideal backend can return for per-bit probabilities [pr]:
    a bit of probability 0 reads 0, a bit of probability 1 reads 1. *)
Definition possible_shot (pr : nat -> option R) (sh : shot) : Prop :=
  forall c p, pr c = Some p ->
    (p = 0 -> nth c sh false = false) /\ (p = 1 -> nth c sh false = true).

(** [job.result().get_counts(qc[player])] for [shots] samples, kept as
    the list of shots. *)
Definition possible_grid (qc : circuit) (shots : nat) (grid : list shot) : Prop :=
  length grid = shots /\ Forall (possible_shot (measured qc)) grid.

(** Number of shots that read 1 at [position]. *)
Definition successes (grid : list shot) (position : nat) : nat :=
  length (filter (fun sh => nth position sh false) grid).




(** ** The game of the notebook's transcript *)

Module Demo.

(** The placement the recorded run shows: player 1 on 0, 1 and 2,
    player 2 on 2, 3 and 4. *)
Definition shipPos : list (list nat) := [[0; 1; 2]; [2; 3; 4]]%nat.

(** The ledger after the first round: player 1 bombs 0, player 2
    bombs 1. *)
Definition bomb1 : list (list nat) := [[1; 0; 0; 0; 0]; [0; 1; 0; 0; 0]]%nat.

(** The seven rounds of the recorded run and the ledger they leave. *)
Definition rounds : list (nat * nat) :=
  [(0, 1); (2, 4); (3, 1); (3, 0); (4, 4); (4, 3); (4, 2)]%nat.
Definition bomb_final : list (list nat) :=
  [[1; 0; 1; 2; 3]; [1; 2; 1; 1; 2]]%nat.

(** Player 2 has bombed position 0 once, twice. *)
Definition bomb_once : list (list nat) := [[0; 0; 0; 0; 0]; [1; 0; 0; 0; 0]]%nat.
Definition bomb_twice : list (list nat) := [[0; 0; 0; 0; 0]; [2; 0; 0; 0; 0]]%nat.

(** Player 2 has bombed positions 0 and 2 twice each. *)
Definition bomb_pair : list (list nat) := [[0; 0; 0; 0; 0]; [2; 0; 2; 0; 0]]%nat.


(** Every position bombed once by both players, and one shot per grid
    that reads 1 at every ship. *)
Definition bomb_all : list (list nat) := [[1; 1; 1; 1; 1]; [1; 1; 1; 1; 1]]%nat.
Definition grids_all : list (list (list bool)) :=
  [[[true; true; true; false; false]]; [[false; false; true; true; true]]].

End Demo.

(** ** The engine the notebook imports *)

Module Engine.

(** Modelled from the spec: the two functions of
    [game_engines/battleships_engine.py] that the main loop calls,
    [ask_for_bombs] (BombLedger and the target collection of
    RoundEngine) and [display_grid] (DamageModel steps 3 and 4, the
    destruction state, the report and the termination check).  The
    notebook passes [display_grid] the grid, the placement and the shot
    count; the spec words the report over the ledger, so the model takes
    the ledger as well. *)

(** Modelled from the spec: BombLedger [record_attack(attacking_player,
    position)] increments that cell's count by 1 and fails with
    InvalidPosition if position is outside {0..4}. *)
Definition record_attack (bomb : list (list nat)) (attacking_player position : nat)
    : option (list (list nat)) :=
  if Nat.ltb position 5 then
    row <- nth_error bomb attacking_player ;;
    count <- nth_error row position ;;
    Some (set_count bomb attacking_player position (count + 1))
  else None.

(** Modelled from the spec: [ask_for_bombs], one target per player per
    round, both recorded into the ledger. *)
Definition ask_for_bombs (bomb : list (list nat)) (targets : nat * nat)
    : option (list (list nat)) :=
  bomb1 <- record_attack bomb 0 (fst targets) ;;
  record_attack bomb1 1 (snd targets).

(** The ledger after a sequence of rounds, [bomb = ask_for_bombs(bomb)]
    once per round. *)
Definition play_rounds (rounds : list (nat * nat)) (bomb : list (list nat))
    : option (list (list nat)) :=
  Py.for_each rounds (fun targets bomb => ask_for_bombs bomb targets) bomb.

(** Number of rounds in which [attacker] chose [position]. *)
Definition times_targeted (rounds : list (nat * nat)) (attacker position : nat)
    : nat :=
  length (filter (fun targets : nat * nat =>
    match attacker with
    | 0%nat => Nat.eqb (fst targets) position
    | 1%nat => Nat.eqb (snd targets) position
    | _ => false
    end) rounds).

(** Modelled from the spec: DamageModel step 3,
    [damage_percent = round(100 * successes / N)], to the nearest
    integer. *)
Definition damage_percent (N succ : nat) : nat :=
  ((200 * succ + N) / (2 * N))%nat.

(** Modelled from the spec: an entry of the round's report,
    [damage_percent | unknown]. *)
Inductive damage : Type :=
| Unknown
| Percent (d : nat).

(** Modelled from the spec: DamageModel step 4 and the design note on
    positions without a ship: a position never attacked, or attacked but
    holding no ship, is reported as unknown; otherwise the percentage of
    the [N] samples.  This is the rule as the spec words it, over the
    ledger; the function the notebook calls is not handed the ledger
    (see [display]). *)
Definition report_position (bomb shipPos : list (list nat)) (N : nat)
    (grid : list shot) (player position : nat) : damage :=
  match attacks_on bomb (opponent player) position with
  | Some (S _) =>
      match nth_error shipPos player with
      | Some ships =>
          if existsb (Nat.eqb position) ships
          then Percent (damage_percent N (successes grid position))
          else Unknown
      | None => Unknown
      end
  | _ => Unknown
  end.

(** Modelled from the spec: a ship is destroyed in a round's report iff
    its damage percentage is at least 95. *)
Definition destroyed (d : damage) : bool :=
  match d with
  | Percent p => Nat.leb 95 p
  | Unknown => false
  end.

(** Modelled from the spec: all ships of [player] show destruction
    state true in this round's report. *)
Definition fleet_destroyed (bomb shipPos : list (list nat)) (N : nat)
    (grids : list (list shot)) (player : nat) : bool :=
  match nth_error shipPos player, nth_error grids player with
  | Some ships, Some grid =>
      forallb (fun position =>
        destroyed (report_position bomb shipPos N grid player position)) ships
  | _, _ => false
  end.

(** Modelled from the spec: [show_game_over(winner | draw)]. *)
Inductive game_over : Type :=
| Winner (player : nat)
| Draw.

(** Modelled from the spec: the round ends in [Continue] or
    [GameOver]. *)
Inductive verdict : Type :=
| Continue
| GameOver (r : game_over).

(** Modelled from the spec: the termination check of RoundEngine: game
    over when all ships of either player are destroyed, reporting the
    player whose fleet survived, and a draw when both fleets are
    destroyed in the same round. *)
Definition termination_check (bomb shipPos : list (list nat)) (N : nat)
    (grids : list (list shot)) : verdict :=
  match fleet_destroyed bomb shipPos N grids 0,
        fleet_destroyed bomb shipPos N grids 1 with
  | true, true => GameOver Draw
  | true, false => GameOver (Winner 1)
  | false, true => GameOver (Winner 0)
  | false, false => Continue
  end.

(** Modelled from the spec: the flag [display_grid] returns to the main
    loop, [game], false once the game is over. *)
Definition display_grid (bomb shipPos : list (list nat)) (N : nat)
    (grids : list (list shot)) : bool :=
  match termination_check bomb shipPos N grids with
  | Continue => true
  | GameOver _ => false
  end.

End Engine.

(** ** Loops *)

Section ForEach.

Context {A I : Type}.

Lemma for_each_append (g : A -> list I) (body : A -> list I -> option (list I))
    (xs : list A) :
  (forall x, In x xs -> forall s, body x s = Some (s ++ g x)) ->
  forall s, Py.for_each xs body s = Some (s ++ flat_map g xs).
Proof.
  induction xs as [|x xs IH]; intros Hbody s; simpl.
  - now rewrite app_nil_r.
  - rewrite (Hbody x (or_introl eq_refl)). simpl.
    rewrite IH by (intros y Hy; apply Hbody; now right).
    now rewrite app_assoc.
Qed.

End ForEach.

Lemma ship_loop_gates (shipPos : list (list nat)) (player position : nat)
    (ships : list nat) (qc : circuit) :
  nth_error shipPos player = Some ships ->
  length ships = 3%nat ->
  Py.for_each [0; 1; 2]%nat (fun ship qc =>
    ships <- nth_error shipPos player ;;
    s <- nth_error ships ship ;;
    if Nat.eqb position s then
      let frac := 1 / INR (ship + 1) in
      Some (qc ++ [u3 (frac * PI) 0 0 position])
    else Some qc) qc
  = Some (qc ++ ship_gates ships position).
Proof.
  intros Hs Hlen. unfold ship_gates.
  apply for_each_append. intros ship Hin s. rewrite Hs. simpl.
  destruct (nth_error ships ship) as [p|] eqn:E.
  - simpl. destruct (Nat.eqb position p); [reflexivity|now rewrite app_nil_r].
  - apply nth_error_None in E. simpl in Hin. lia.
Qed.

Lemma add_bombs_gates (bomb shipPos : list (list nat)) (player : nat)
    (row ships : list nat) (qc : circuit) :
  nth_error bomb (opponent player) = Some row ->
  length row = 5%nat ->
  nth_error shipPos player = Some ships ->
  length ships = 3%nat ->
  add_bombs bomb shipPos player qc = Some (qc ++ bomb_gates ships row).
Proof.
  intros Hrow Hlen Hs Hlen3. unfold add_bombs, bomb_gates.
  apply for_each_append. intros position Hin s.
  unfold opponent in Hrow. rewrite Hrow. simpl.
  destruct (nth_error row position) as [count|] eqn:E.
  - simpl. rewrite (nth_error_nth _ _ _ E). unfold position_gates.
    apply for_each_append. intros _ _ s'.
    now apply ship_loop_gates.
  - apply nth_error_None in E. unfold Py.range in Hin.
    apply in_seq in Hin. lia.
Qed.

Lemma add_measures_gates (qc : circuit) :
  add_measures qc = Some (qc ++ measure_gates).
Proof.
  unfold add_measures, measure_gates. now apply for_each_append.
Qed.

Lemma build_circuit_gates (bomb shipPos : list (list nat)) (player : nat)
    (row ships : list nat) :
  nth_error bomb (opponent player) = Some row ->
  length row = 5%nat ->
  nth_error shipPos player = Some ships ->
  length ships = 3%nat ->
  build_circuit bomb shipPos player = Some (bomb_gates ships row ++ measure_gates).
Proof.
  intros Hrow Hlen Hs Hlen3. unfold build_circuit.
  rewrite (add_bombs_gates _ _ _ _ _ _ Hrow Hlen Hs Hlen3). simpl.
  apply add_measures_gates.
Qed.

(** ** Total rotation of the emitted gates *)

Lemma rotation_on_app (qc1 qc2 : circuit) (q : nat) :
  rotation_on (qc1 ++ qc2) q = rotation_on qc1 q + rotation_on qc2 q.
Proof.
  induction qc1 as [|[theta phi lam q'|q' c] qc1 IH]; simpl; rewrite ?IH; lra.
Qed.

Lemma rotation_on_repeat {A : Type} (g : circuit) (l : list A) (q : nat) :
  rotation_on (flat_map (fun _ => g) l) q = INR (length l) * rotation_on g q.
Proof.
  induction l as [|x l IH].
  - simpl. lra.
  - change (flat_map (fun _ : A => g) (x :: l))
      with (g ++ flat_map (fun _ : A => g) l).
    rewrite rotation_on_app, IH.
    change (length (x :: l)) with (S (length l)). rewrite S_INR. lra.
Qed.

Lemma rotation_on_measure_gates (q : nat) : rotation_on measure_gates q = 0.
Proof. reflexivity. Qed.

Lemma rotation_on_flat_map_zero {A : Type} (g : A -> circuit) (l : list A)
    (q : nat) :
  (forall x, rotation_on (g x) q = 0) -> rotation_on (flat_map g l) q = 0.
Proof.
  intros Hz. induction l as [|x l IH]; [reflexivity|].
  change (flat_map g (x :: l)) with (g x ++ flat_map g l).
  rewrite rotation_on_app, Hz, IH. lra.
Qed.

Lemma rotation_on_ship_gates_other (ships : list nat) (position q : nat) :
  position <> q -> rotation_on (ship_gates ships position) q = 0.
Proof.
  intros Hne. apply Nat.eqb_neq in Hne.
  apply rotation_on_flat_map_zero. intros ship.
  destruct (nth_error ships ship) as [s|]; [|reflexivity].
  destruct (Nat.eqb position s); simpl; rewrite ?Hne; lra.
Qed.

Lemma rotation_on_position_gates (ships : list nat) (count position q : nat) :
  rotation_on (position_gates ships count position) q =
  if Nat.eqb position q then INR count * rotation_on (ship_gates ships q) q
  else 0.
Proof.
  unfold position_gates. rewrite rotation_on_repeat.
  unfold Py.range. rewrite length_seq.
  destruct (Nat.eqb position q) eqn:E.
  - apply Nat.eqb_eq in E. now subst.
  - apply Nat.eqb_neq in E. rewrite rotation_on_ship_gates_other by assumption.
    lra.
Qed.

Lemma rotation_on_bomb_gates (ships row : list nat) (q : nat) :
  (q < 5)%nat ->
  rotation_on (bomb_gates ships row) q =
  INR (nth q row 0%nat) * rotation_on (ship_gates ships q) q.
Proof.
  intros Hq. unfold bomb_gates, Py.range.
  change (seq 0 5) with [0; 1; 2; 3; 4]%nat.
  cbn [flat_map]. rewrite !rotation_on_app, !rotation_on_position_gates.
  do 5 (destruct q as [|q]; [simpl; lra|]). lia.
Qed.

(** With the ships on distinct positions only one [ship] matches. *)
Lemma rotation_on_ship_gates_ship (ships : list nat) (ship position : nat) :
  length ships = 3%nat ->
  NoDup ships ->
  nth_error ships ship = Some position ->
  rotation_on (ship_gates ships position) position = frac ship * PI.
Proof.
  intros Hlen Hnd Hs.
  destruct ships as [|a [|b [|c [|? ?]]]]; try discriminate.
  inversion Hnd as [|? ? Ha Hnd1]; subst.
  inversion Hnd1 as [|? ? Hb Hnd2]; subst.
  assert (Hab : a <> b) by (intros ->; apply Ha; now left).
  assert (Hac : a <> c) by (intros ->; apply Ha; right; now left).
  assert (Hbc : b <> c) by (intros ->; apply Hb; now left).
  unfold ship_gates, frac.
  destruct ship as [|[|[|ship]]]; simpl in Hs.
  - injection Hs as <-. simpl. rewrite !Nat.eqb_refl.
    apply Nat.eqb_neq in Hab, Hac. rewrite Hab, Hac. simpl.
    rewrite Nat.eqb_refl. lra.
  - injection Hs as <-. simpl. rewrite !Nat.eqb_refl.
    apply Nat.eqb_neq in Hbc. apply not_eq_sym, Nat.eqb_neq in Hab.
    rewrite Hab, Hbc. simpl. rewrite Nat.eqb_refl. lra.
  - injection Hs as <-. simpl. rewrite !Nat.eqb_refl.
    apply not_eq_sym, Nat.eqb_neq in Hac. apply not_eq_sym, Nat.eqb_neq in Hbc.
    rewrite Hac, Hbc. simpl. rewrite Nat.eqb_refl. lra.
  - destruct ship; discriminate.
Qed.

Lemma ship_gates_empty (ships : list nat) (position : nat) :
  ~ In position ships -> ship_gates ships position = [].
Proof.
  intros Hnin. unfold ship_gates.
  induction [0; 1; 2]%nat as [|ship l IH]; [reflexivity|].
  cbn [flat_map]. rewrite IH.
  destruct (nth_error ships ship) as [s|] eqn:E; [|reflexivity].
  destruct (Nat.eqb position s) eqn:Es; [|reflexivity].
  apply Nat.eqb_eq in Es. subst s. exfalso. apply Hnin.
  eapply nth_error_In; eauto.
Qed.

(** ** Execution of the emitted gates *)

Lemma apply_u3_ry (theta a : R) :
  apply_u3 theta 0 0 (ry_state a) = ry_state (a + theta).
Proof.
  unfold apply_u3, ry_state, Amp.Cadd, Amp.Cmul, Amp.Copp, Amp.Creal, Amp.Cexpi.
  cbn [amp0 amp1 fst snd].
  rewrite Rplus_0_r, cos_0, sin_0.
  replace ((a + theta) / 2) with (a / 2 + theta / 2) by lra.
  rewrite cos_plus, sin_plus.
  f_equal; f_equal; ring.
Qed.

Lemma prob1_ry_state (a : R) : prob1 (ry_state a) = sin2_half a.
Proof.
  unfold prob1, ry_state, Amp.Cnorm2, Amp.Creal, sin2_half. cbn [amp1 fst snd].
  rewrite Rsqr_0. lra.
Qed.

Lemma ket0_ry_state : ket0 = ry_state 0.
Proof.
  unfold ket0, ry_state, Amp.Cone, Amp.Czero, Amp.Creal.
  replace (0 / 2) with 0 by lra. now rewrite cos_0, sin_0.
Qed.

Lemma exec_ry_gates (gates rest : circuit) :
  Forall is_ry gates ->
  forall (st : nat -> qubit) (rot : nat -> R) (cl : nat -> option R),
  (forall q, st q = ry_state (rot q)) ->
  exists st',
    (forall q, st' q = ry_state (rot q + rotation_on gates q)) /\
    exec (gates ++ rest) st cl = exec rest st' cl.
Proof.
  induction 1 as [|i gates Hi _ IH]; intros st rot cl Hst.
  - exists st. split; [|reflexivity].
    intros q. rewrite Hst. simpl. now rewrite Rplus_0_r.
  - destruct i as [theta phi lam q'|]; [|contradiction].
    destruct Hi as [-> ->]. simpl.
    destruct (IH (upd st q' (apply_u3 theta 0 0 (st q')))
                 (upd rot q' (rot q' + theta)) cl) as [st' [Hst' Hex]].
    { intros q. unfold upd. destruct (Nat.eqb q q') eqn:E.
      - rewrite Hst. apply apply_u3_ry.
      - apply Hst. }
    exists st'. split; [|exact Hex].
    intros q. rewrite Hst'. unfold upd. rewrite (Nat.eqb_sym q' q).
    destruct (Nat.eqb q q') eqn:E.
    + apply Nat.eqb_eq in E. subst. f_equal. lra.
    + f_equal. lra.
Qed.

Lemma exec_measure_gates (st : nat -> qubit) (c : nat) :
  (c < 5)%nat ->
  exec measure_gates st (fun _ => None) c = Some (prob1 (st c)).
Proof.
  intros Hc. do 5 (destruct c as [|c]; [reflexivity|]). lia.
Qed.

Lemma is_ry_ship_gates (ships : list nat) (position : nat) :
  Forall is_ry (ship_gates ships position).
Proof.
  unfold ship_gates. apply Forall_flat_map, Forall_forall. intros ship _.
  destruct (nth_error ships ship) as [s|]; [|constructor].
  destruct (Nat.eqb position s); repeat constructor.
Qed.

Lemma is_ry_bomb_gates (ships row : list nat) :
  Forall is_ry (bomb_gates ships row).
Proof.
  unfold bomb_gates. apply Forall_flat_map, Forall_forall. intros position _.
  unfold position_gates. apply Forall_flat_map, Forall_forall. intros _ _.
  apply is_ry_ship_gates.
Qed.

(** What a shot of the circuit of the main loop reads at a position:
    1 with probability [sin^2(rotation/2)], the rotation being one
    [ship_gates] per recorded bomb. *)
Lemma measured_bomb_gates (ships row : list nat) (position : nat) :
  (position < 5)%nat ->
  measured (bomb_gates ships row ++ measure_gates) position =
  Some (sin2_half (rotation_on (bomb_gates ships row ++ measure_gates) position)).
Proof.
  intros Hp. unfold measured.
  destruct (exec_ry_gates (bomb_gates ships row) measure_gates
              (is_ry_bomb_gates ships row) (fun _ => ket0) (fun _ => 0)
              (fun _ => None)) as [st' [Hst' Hex]].
  { intros _. apply ket0_ry_state. }
  rewrite Hex, exec_measure_gates by assumption.
  rewrite Hst', prob1_ry_state, rotation_on_app, rotation_on_measure_gates.
  f_equal. f_equal. lra.
Qed.

(** ** The invariants, as propositions *)

Lemma distinct_NoDup (l : list nat) : distinct l = true -> NoDup l.
Proof.
  induction l as [|x l IH]; simpl; intros H; constructor.
  - apply andb_prop in H as [H _]. apply negb_true_iff in H.
    intros Hin. assert (existsb (Nat.eqb x) l = true); [|congruence].
    apply existsb_exists. exists x. split; [assumption|apply Nat.eqb_refl].
  - apply andb_prop in H as [_ H]. auto.
Qed.

Lemma placement_ok_fleet (shipPos : list (list nat)) (player : nat)
    (ships : list nat) :
  placement_ok shipPos = true ->
  nth_error shipPos player = Some ships ->
  length ships = 3%nat /\ NoDup ships.
Proof.
  intros Hok Hs. unfold placement_ok in Hok.
  rewrite forallb_forall in Hok.
  specialize (Hok ships (nth_error_In _ _ Hs)).
  apply andb_prop in Hok as [Hl Hd]. apply Nat.eqb_eq in Hl.
  split; [assumption|now apply distinct_NoDup].
Qed.

Lemma ledger_ok_row (bomb : list (list nat)) (attacker : nat) (row : list nat) :
  ledger_ok bomb = true ->
  nth_error bomb attacker = Some row ->
  length row = 5%nat.
Proof.
  intros Hok Hr. unfold ledger_ok in Hok. rewrite forallb_forall in Hok.
  apply Nat.eqb_eq, Hok. eapply nth_error_In; eauto.
Qed.

Lemma attacks_on_row (bomb : list (list nat)) (attacker position count : nat) :
  ledger_ok bomb = true ->
  attacks_on bomb attacker position = Some count ->
  exists row,
    nth_error bomb attacker = Some row /\ length row = 5%nat /\
    nth position row 0%nat = count /\ (position < 5)%nat.
Proof.
  intros Hok Ha. unfold attacks_on in Ha.
  destruct (nth_error bomb attacker) as [row|] eqn:Er; [|discriminate].
  simpl in Ha. exists row.
  pose proof (ledger_ok_row _ _ _ Hok Er) as Hlen.
  repeat split; try assumption.
  - now apply nth_error_nth.
  - rewrite <- Hlen. apply nth_error_Some. congruence.
Qed.

Lemma ship_at_fleet (shipPos : list (list nat)) (player ship position : nat) :
  placement_ok shipPos = true ->
  ship_at shipPos player ship = Some position ->
  exists ships,
    nth_error shipPos player = Some ships /\ length ships = 3%nat /\
    NoDup ships /\ nth_error ships ship = Some position.
Proof.
  intros Hok Hs. unfold ship_at in Hs.
  destruct (nth_error shipPos player) as [ships|] eqn:E; [|discriminate].
  simpl in Hs. exists ships.
  destruct (placement_ok_fleet _ _ _ Hok E) as [Hl Hd]. auto.
Qed.

(** ** The circuit of a player, position by position *)

Section Circuit.

Variables (bomb shipPos : list (list nat)) (player : nat).
Hypothesis Hledger : ledger_ok bomb = true.
Hypothesis Hplacement : placement_ok shipPos = true.

(** A bombed position that holds ship [ship]. *)
Lemma build_circuit_ship (ship position count : nat) :
  ship_at shipPos player ship = Some position ->
  attacks_on bomb (opponent player) position = Some count ->
  exists qc,
    build_circuit bomb shipPos player = Some qc /\
    rotation_on qc position = INR count * frac ship * PI /\
    measured qc position = Some (sin2_half (INR count * frac ship * PI)).
Proof.
  intros Hs Ha.
  destruct (ship_at_fleet _ _ _ _ Hplacement Hs) as [ships [Hf [Hl3 [Hnd Hn]]]].
  destruct (attacks_on_row _ _ _ _ Hledger Ha) as [row [Hr [Hl5 [Hc Hp]]]].
  exists (bomb_gates ships row ++ measure_gates).
  assert (Hrot : rotation_on (bomb_gates ships row ++ measure_gates) position
                 = INR count * frac ship * PI).
  { rewrite rotation_on_app, rotation_on_measure_gates,
      rotation_on_bomb_gates, Hc by assumption.
    rewrite (rotation_on_ship_gates_ship ships ship) by assumption. lra. }
  split; [now apply build_circuit_gates|]. split; [exact Hrot|].
  rewrite measured_bomb_gates by assumption. now rewrite Hrot.
Qed.

Lemma p_success_ship (ship position count : nat) :
  ship_at shipPos player ship = Some position ->
  attacks_on bomb (opponent player) position = Some count ->
  p_success bomb shipPos player position
  = Some (sin2_half (INR count * frac ship * PI)).
Proof.
  intros Hs Ha.
  destruct (build_circuit_ship _ _ _ Hs Ha) as [qc [Hb [_ Hm]]].
  unfold p_success. now rewrite Hb.
Qed.

End Circuit.

(** ** The probability [sin^2(rotation/2)] *)

Lemma sin2_half_PI : sin2_half PI = 1.
Proof. unfold sin2_half. rewrite sin_PI2. apply Rsqr_1. Qed.

Lemma sin2_half_0 : sin2_half 0 = 0.
Proof.
  unfold sin2_half. replace (0 / 2) with 0 by lra. rewrite sin_0. apply Rsqr_0.
Qed.

Lemma sin2_half_bounds (x : R) : 0 <= sin2_half x <= 1.
Proof.
  unfold sin2_half. pose proof (sin2_cos2 (x / 2)) as H.
  pose proof (Rle_0_sqr (sin (x / 2))). pose proof (Rle_0_sqr (cos (x / 2))).
  lra.
Qed.

(** The probability grows with the rotation up to a full flip. *)
Lemma sin2_half_mono (x y : R) :
  0 <= x -> x <= y -> y <= PI -> sin2_half x <= sin2_half y.
Proof.
  intros Hx Hxy Hy. unfold sin2_half. pose proof PI_RGT_0 as Hpi.
  apply Rsqr_incr_1.
  - apply sin_incr_1; lra.
  - apply sin_ge_0; lra.
  - apply sin_ge_0; lra.
Qed.

Lemma sin2_half_eq_1 (x : R) :
  sin2_half x = 1 <-> exists k : Z, x = (2 * IZR k + 1) * PI.
Proof.
  unfold sin2_half. split.
  - intros H. pose proof (sin2_cos2 (x / 2)) as Hsc.
    assert (Hc : cos (x / 2) = 0) by (apply Rsqr_eq_0; lra).
    destruct (cos_eq_0_0 _ Hc) as [k Hk]. exists k. lra.
  - intros [k Hk].
    assert (Hc : cos (x / 2) = 0) by (apply cos_eq_0_1; exists k; lra).
    pose proof (sin2_cos2 (x / 2)) as Hsc. rewrite Hc, Rsqr_0 in Hsc. lra.
Qed.

Lemma sin2_half_eq_0 (x : R) :
  sin2_half x = 0 <-> exists k : Z, x = 2 * IZR k * PI.
Proof.
  unfold sin2_half. split.
  - intros H. apply Rsqr_eq_0 in H.
    destruct (sin_eq_0_0 _ H) as [k Hk]. exists k. lra.
  - intros [k Hk].
    assert (Hs : sin (x / 2) = 0) by (apply sin_eq_0_1; exists k; lra).
    rewrite Hs. apply Rsqr_0.
Qed.

(** ** The rotation [count * frac * pi] *)

Lemma INR_order_pos (ship : nat) : 0 < INR (ship + 1).
Proof. apply lt_0_INR. lia. Qed.

Lemma frac_pos (ship : nat) : 0 < frac ship.
Proof.
  unfold frac. apply Rdiv_lt_0_compat; [lra|apply INR_order_pos].
Qed.

Lemma rotation_full (ship : nat) : INR (ship + 1) * frac ship * PI = PI.
Proof.
  unfold frac. pose proof (INR_order_pos ship). field. lra.
Qed.

Lemma rotation_scaled (ship count : nat) (z : R) :
  INR count * frac ship * PI = z * PI <-> INR count = z * INR (ship + 1).
Proof.
  unfold frac. pose proof (INR_order_pos ship) as Hpos.
  pose proof PI_RGT_0 as Hpi. split; intros H.
  - assert (H1 : INR count * (1 / INR (ship + 1)) = z) by nra.
    rewrite <- H1. field. lra.
  - rewrite H. field. lra.
Qed.

(** Probability exactly 1: the count is an odd multiple of the order
    index. *)
Lemma sin2_half_count_1 (ship count : nat) :
  sin2_half (INR count * frac ship * PI) = 1 <->
  exists m : nat, count = ((ship + 1) * (2 * m + 1))%nat.
Proof.
  rewrite sin2_half_eq_1. split.
  - intros [k Hk]. apply rotation_scaled in Hk.
    rewrite !INR_IZR_INZ in Hk.
    change 2 with (IZR 2) in Hk. change 1 with (IZR 1) in Hk.
    rewrite <- mult_IZR, <- plus_IZR, <- mult_IZR in Hk.
    apply eq_IZR in Hk. assert (0 <= k)%Z by nia.
    exists (Z.to_nat k). apply Nat2Z.inj.
    rewrite Hk, ?Nat2Z.inj_mul, ?Nat2Z.inj_add, ?Nat2Z.inj_mul, Z2Nat.id by assumption.
    simpl. ring.
  - intros [m ->]. exists (Z.of_nat m). apply rotation_scaled.
    rewrite ?mult_INR, ?plus_INR, ?mult_INR, <- INR_IZR_INZ.
    change (INR 2) with 2. change (INR 1) with 1. ring.
Qed.

(** Probability exactly 0: the count is an even multiple of the order
    index. *)
Lemma sin2_half_count_0 (ship count : nat) :
  sin2_half (INR count * frac ship * PI) = 0 <->
  exists m : nat, count = ((ship + 1) * (2 * m))%nat.
Proof.
  rewrite sin2_half_eq_0. split.
  - intros [k Hk]. apply rotation_scaled in Hk.
    rewrite !INR_IZR_INZ in Hk. change 2 with (IZR 2) in Hk.
    rewrite <- !mult_IZR in Hk.
    apply eq_IZR in Hk. assert (0 <= k)%Z by nia.
    exists (Z.to_nat k). apply Nat2Z.inj.
    rewrite Hk, ?Nat2Z.inj_mul, ?Nat2Z.inj_add, ?Nat2Z.inj_mul, Z2Nat.id by assumption.
    simpl. ring.
  - intros [m ->]. exists (Z.of_nat m). apply rotation_scaled.
    rewrite ?mult_INR, ?plus_INR, ?mult_INR, <- INR_IZR_INZ.
    change (INR 2) with 2. change (INR 1) with 1. ring.
Qed.

(** ** The recorded run *)

(** The circuit of player 1's grid after the first round: one half
    flip on qubit 1, then the five measurements. *)
Example round1_circuit :
  build_circuit Demo.bomb1 Demo.shipPos 0
  = Some [u3 (1 / INR (1 + 1) * PI) 0 0 1;
          measure 0 0; measure 1 1; measure 2 2; measure 3 3; measure 4 4].
Proof. reflexivity. Qed.

(** The transcript shows 49% and 48% there. *)
Example round1_second_ship :
  p_success Demo.bomb1 Demo.shipPos 0 1 = Some (1 / 2).
Proof.
  rewrite (p_success_ship Demo.bomb1 Demo.shipPos 0 eq_refl eq_refl 1 1 1)
    by reflexivity.
  f_equal. unfold sin2_half, frac. change (INR (1 + 1)) with 2.
  replace (INR 1 * (1 / 2) * PI / 2) with (PI / 4) by (simpl; field).
  rewrite sin_PI4. unfold Rdiv. rewrite Rsqr_mult, Rsqr_1, Rmult_1_l.
  rewrite Rsqr_inv', Rsqr_sqrt by lra. lra.
Qed.

(** The third ship of player 2 after one bomb on position 4: the
    transcript shows 23%. *)
Example third_ship_once :
  p_success [[0; 0; 0; 0; 1]; [0; 0; 0; 0; 0]]%nat Demo.shipPos 1 4
  = Some (1 / 4).
Proof.
  rewrite (p_success_ship [[0; 0; 0; 0; 1]; [0; 0; 0; 0; 0]]%nat Demo.shipPos 1
             eq_refl eq_refl 2 4 1) by reflexivity.
  f_equal. unfold sin2_half, frac.
  replace (INR (2 + 1)) with 3 by (simpl; lra).
  replace (INR 1 * (1 / 3) * PI / 2) with (PI / 6) by (simpl; field).
  rewrite sin_PI6. unfold Rsqr. lra.
Qed.

(** At the end of the run the three ships of player 2 have taken one,
    two and three bombs: the transcript shows 100% three times. *)
Example recorded_run_end :
  p_success Demo.bomb_final Demo.shipPos 1 2 = Some 1 /\
  p_success Demo.bomb_final Demo.shipPos 1 3 = Some 1 /\
  p_success Demo.bomb_final Demo.shipPos 1 4 = Some 1.
Proof.
  repeat split.
  - rewrite (p_success_ship Demo.bomb_final Demo.shipPos 1 eq_refl eq_refl 0 2 1)
      by reflexivity.
    f_equal. apply sin2_half_count_1. exists 0%nat. reflexivity.
  - rewrite (p_success_ship Demo.bomb_final Demo.shipPos 1 eq_refl eq_refl 1 3 2)
      by reflexivity.
    f_equal. apply sin2_half_count_1. exists 0%nat. reflexivity.
  - rewrite (p_success_ship Demo.bomb_final Demo.shipPos 1 eq_refl eq_refl 2 4 3)
      by reflexivity.
    f_equal. apply sin2_half_count_1. exists 0%nat. reflexivity.
Qed.

Example recorded_run_ledger :
  Engine.play_rounds Demo.rounds bomb_init = Some Demo.bomb_final.
Proof. reflexivity. Qed.

(** ** Sampling a certain outcome *)

Lemma successes_certain (qc : circuit) (N : nat) (grid : list shot)
    (position : nat) :
  possible_grid qc N grid ->
  measured qc position = Some 1 ->
  successes grid position = N.
Proof.
  intros [Hlen Hall] Hm. unfold successes. rewrite <- Hlen. clear Hlen.
  induction Hall as [|sh grid Hsh _ IH]; [reflexivity|].
  simpl. destruct (Hsh position 1 Hm) as [_ H1]. rewrite (H1 eq_refl).
  simpl. now rewrite IH.
Qed.

Lemma successes_impossible (qc : circuit) (N : nat) (grid : list shot)
    (position : nat) :
  possible_grid qc N grid ->
  measured qc position = Some 0 ->
  successes grid position = 0%nat.
Proof.
  intros [_ Hall] Hm. unfold successes.
  induction Hall as [|sh grid Hsh _ IH]; [reflexivity|].
  simpl. destruct (Hsh position 0 Hm) as [H0 _]. now rewrite (H0 eq_refl).
Qed.

(** A ship that was never bombed is read as intact by every shot. *)
Lemma never_bombed_ship_reads_zero (bomb shipPos : list (list nat))
    (player ship position : nat) :
  ledger_ok bomb = true ->
  placement_ok shipPos = true ->
  ship_at shipPos player ship = Some position ->
  attacks_on bomb (opponent player) position = Some 0%nat ->
  exists qc,
    build_circuit bomb shipPos player = Some qc /\
    measured qc position = Some 0 /\
    forall N grid, possible_grid qc N grid -> successes grid position = 0%nat.
Proof.
  intros Hl Hp Hs Ha.
  destruct (build_circuit_ship _ _ _ Hl Hp _ _ _ Hs Ha) as [qc [Hb [_ Hm]]].
  replace (INR 0 * frac ship * PI) with 0 in Hm by (simpl; ring).
  rewrite sin2_half_0 in Hm.
  exists qc. split; [assumption|]. split; [assumption|].
  intros N grid Hg. eapply successes_impossible; eauto.
Qed.

Lemma damage_percent_full (N : nat) :
  (1 <= N)%nat -> Engine.damage_percent N N = 100%nat.
Proof.
  intros HN. unfold Engine.damage_percent. symmetry.
  apply (Nat.div_unique _ _ 100 N); lia.
Qed.

Lemma existsb_position (ships : list nat) (ship position : nat) :
  nth_error ships ship = Some position ->
  existsb (Nat.eqb position) ships = true.
Proof.
  intros H. apply existsb_exists. exists position.
  split; [eapply nth_error_In; eauto|apply Nat.eqb_refl].
Qed.

(** ** Rotation and probability of a bombed ship *)

(** C1.  For every ship of the defending player and whatever the ledger
    holds in a round, the gates applied to the ship's qubit rotate it by
    (attacks recorded by the opponent on the ship's position) x
    (1 / order index) x pi in total, and a shot reads the qubit as
    destroyed with probability sin^2(rotation / 2). *)
Theorem total_rotation_of_ship (bomb shipPos : list (list nat))
    (player ship position count : nat) :
  ledger_ok bomb = true ->
  placement_ok shipPos = true ->
  ship_at shipPos player ship = Some position ->
  attacks_on bomb (opponent player) position = Some count ->
  exists qc,
    build_circuit bomb shipPos player = Some qc /\
    rotation_on qc position = INR count * (1 / INR (ship + 1)) * PI /\
    measured qc position = Some (Rsqr (sin (rotation_on qc position / 2))).
Proof.
  intros Hl Hp Hs Ha.
  destruct (build_circuit_ship _ _ _ Hl Hp _ _ _ Hs Ha) as [qc [Hb [Hr Hm]]].
  exists qc. split; [assumption|]. split; [exact Hr|].
  rewrite Hm, Hr. reflexivity.
Qed.

Lemma total_rotation_of_ship_witness :
  ledger_ok Demo.bomb1 = true /\
  placement_ok Demo.shipPos = true /\
  ship_at Demo.shipPos 0 1 = Some 1%nat /\
  attacks_on Demo.bomb1 (opponent 0) 1 = Some 1%nat /\
  exists qc,
    build_circuit Demo.bomb1 Demo.shipPos 0 = Some qc /\
    rotation_on qc 1 = INR 1 * (1 / INR (1 + 1)) * PI /\
    measured qc 1 = Some (Rsqr (sin (rotation_on qc 1 / 2))).
Proof.
  repeat (split; [reflexivity|]).
  apply (total_rotation_of_ship Demo.bomb1 Demo.shipPos 0 1 1 1); reflexivity.
Defined.

(** C3.  When the attack count on a ship's position equals the ship's
    order index (the ships being on distinct positions, so that all
    these attacks hit this one ship), the rotation is pi and a shot
    reads the ship as destroyed with probability exactly 1; every
    result of N >= 1 shots then counts N successes, the reported damage
    is 100% and the ship is destroyed. *)
Theorem full_rotation_destroys (bomb shipPos : list (list nat))
    (player ship position : nat) :
  ledger_ok bomb = true ->
  placement_ok shipPos = true ->
  ship_at shipPos player ship = Some position ->
  attacks_on bomb (opponent player) position = Some (ship + 1)%nat ->
  exists qc,
    build_circuit bomb shipPos player = Some qc /\
    rotation_on qc position = PI /\
    measured qc position = Some 1 /\
    forall (N : nat) (grid : list shot),
      (1 <= N)%nat ->
      possible_grid qc N grid ->
      successes grid position = N /\
      Engine.report_position bomb shipPos N grid player position
      = Engine.Percent 100 /\
      Engine.destroyed
        (Engine.report_position bomb shipPos N grid player position) = true.
Proof.
  intros Hl Hp Hs Ha.
  destruct (build_circuit_ship _ _ _ Hl Hp _ _ _ Hs Ha) as [qc [Hb [Hr Hm]]].
  rewrite rotation_full in Hr, Hm. rewrite sin2_half_PI in Hm.
  exists qc. repeat (split; [assumption|]).
  intros N grid HN Hg.
  pose proof (successes_certain _ _ _ _ Hg Hm) as Hsucc.
  assert (Hrep : Engine.report_position bomb shipPos N grid player position
                 = Engine.Percent 100).
  { unfold Engine.report_position. rewrite Ha.
    replace (ship + 1)%nat with (S ship) by lia.
    destruct (ship_at_fleet _ _ _ _ Hp Hs) as [ships [Hf [_ [_ Hn]]]].
    rewrite Hf, (existsb_position _ _ _ Hn), Hsucc.
    now rewrite damage_percent_full. }
  split; [assumption|]. split; [assumption|]. now rewrite Hrep.
Qed.

Lemma full_rotation_destroys_witness :
  ledger_ok Demo.bomb_once = true /\
  placement_ok Demo.shipPos = true /\
  ship_at Demo.shipPos 0 0 = Some 0%nat /\
  attacks_on Demo.bomb_once (opponent 0) 0 = Some (0 + 1)%nat /\
  exists qc,
    build_circuit Demo.bomb_once Demo.shipPos 0 = Some qc /\
    rotation_on qc 0 = PI /\
    measured qc 0 = Some 1 /\
    forall (N : nat) (grid : list shot),
      (1 <= N)%nat ->
      possible_grid qc N grid ->
      successes grid 0 = N /\
      Engine.report_position Demo.bomb_once Demo.shipPos N grid 0 0
      = Engine.Percent 100 /\
      Engine.destroyed
        (Engine.report_position Demo.bomb_once Demo.shipPos N grid 0 0) = true.
Proof.
  repeat (split; [reflexivity|]).
  apply (full_rotation_destroys Demo.bomb_once Demo.shipPos 0 0 0); reflexivity.
Defined.

(** ** Bombing beyond the full flip *)

Lemma rotation_le (ship count count' : nat) :
  (count <= count')%nat ->
  INR count * frac ship * PI <= INR count' * frac ship * PI.
Proof.
  intros H. apply le_INR in H.
  assert (0 < frac ship * PI)
    by (apply Rmult_lt_0_compat; [apply frac_pos|apply PI_RGT_0]).
  rewrite !Rmult_assoc. nra.
Qed.

Lemma rotation_nonneg (ship count : nat) : 0 <= INR count * frac ship * PI.
Proof.
  pose proof (pos_INR count).
  assert (0 < frac ship * PI)
    by (apply Rmult_lt_0_compat; [apply frac_pos|apply PI_RGT_0]).
  rewrite Rmult_assoc. nra.
Qed.

(** The recorded run: ship 1 of player 1 sits on position 0. *)
Lemma demo_once : p_success Demo.bomb_once Demo.shipPos 0 0 = Some 1.
Proof.
  rewrite (p_success_ship Demo.bomb_once Demo.shipPos 0 eq_refl eq_refl 0 0 1)
    by reflexivity.
  f_equal. apply sin2_half_count_1. exists 0%nat. reflexivity.
Qed.

Lemma demo_twice : p_success Demo.bomb_twice Demo.shipPos 0 0 = Some 0.
Proof.
  rewrite (p_success_ship Demo.bomb_twice Demo.shipPos 0 eq_refl eq_refl 0 0 2)
    by reflexivity.
  f_equal. apply sin2_half_count_0. exists 1%nat. reflexivity.
Qed.

(** C2, as stated, fails: a second bomb on the first ship takes the
    probability of destruction from 1 back to 0. *)
Lemma probability_not_monotone :
  attacks_on Demo.bomb_once (opponent 0) 0 = Some 1%nat /\
  attacks_on Demo.bomb_twice (opponent 0) 0 = Some 2%nat /\
  exists p p',
    p_success Demo.bomb_once Demo.shipPos 0 0 = Some p /\
    p_success Demo.bomb_twice Demo.shipPos 0 0 = Some p' /\
    ~ p <= p'.
Proof.
  split; [reflexivity|]. split; [reflexivity|].
  exists 1, 0. split; [exact demo_once|]. split; [exact demo_twice|]. lra.
Qed.

Lemma sin2_half_strict_fall (x y : R) :
  PI <= x -> x < y -> y <= 2 * PI -> sin2_half y < sin2_half x.
Proof.
  intros Hx Hxy Hy. unfold sin2_half. pose proof PI_RGT_0 as Hpi.
  apply Rsqr_incrst_1.
  - apply sin_decreasing_1; lra.
  - apply sin_ge_0; lra.
  - apply sin_ge_0; lra.
Qed.

Lemma rotation_lt (ship count count' : nat) :
  (count < count')%nat ->
  INR count * frac ship * PI < INR count' * frac ship * PI.
Proof.
  intros H. apply lt_INR in H.
  assert (0 < frac ship * PI)
    by (apply Rmult_lt_0_compat; [apply frac_pos|apply PI_RGT_0]).
  rewrite !Rmult_assoc. nra.
Qed.

Lemma rotation_two_flips (ship : nat) :
  INR (2 * (ship + 1)) * frac ship * PI = 2 * PI.
Proof.
  rewrite mult_INR. change (INR 2) with 2.
  pose proof (rotation_full ship). lra.
Qed.

(** C2, amended.  For every ship, the probability of destruction
    sin^2(rotation / 2) is non-decreasing in the attack count on the
    ship's position as long as the count does not exceed the ship's
    order index, that is, while the rotation is at most pi; from the
    order index up to twice the order index, the rotation going from pi
    to 2 pi, every further bomb strictly lowers it. *)
Theorem probability_monotone_up_to_order (bomb bomb' shipPos : list (list nat))
    (player ship position count count' : nat) :
  ledger_ok bomb = true ->
  ledger_ok bomb' = true ->
  placement_ok shipPos = true ->
  ship_at shipPos player ship = Some position ->
  attacks_on bomb (opponent player) position = Some count ->
  attacks_on bomb' (opponent player) position = Some count' ->
  (count <= count')%nat ->
  exists p p',
    p_success bomb shipPos player position = Some p /\
    p_success bomb' shipPos player position = Some p' /\
    ((count' <= ship + 1)%nat -> p <= p') /\
    ((ship + 1 <= count)%nat -> (count < count')%nat ->
     (count' <= 2 * (ship + 1))%nat -> p' < p).
Proof.
  intros Hl Hl' Hp Hs Ha Ha' Hle.
  exists (sin2_half (INR count * frac ship * PI)),
         (sin2_half (INR count' * frac ship * PI)).
  split; [now apply p_success_ship|]. split; [now apply p_success_ship|].
  split.
  - intros Hord. apply sin2_half_mono.
    + apply rotation_nonneg.
    + now apply rotation_le.
    + rewrite <- (rotation_full ship) at 2. now apply rotation_le.
  - intros Hge Hlt Htwo. apply sin2_half_strict_fall.
    + rewrite <- (rotation_full ship) at 1. now apply rotation_le.
    + now apply rotation_lt.
    + rewrite <- (rotation_two_flips ship). now apply rotation_le.
Qed.

(** The third ship of player 2: from one bomb to two the probability
    does not fall, from four bombs to five it falls. *)
Lemma probability_monotone_up_to_order_witness :
  (exists p p',
     p_success [[0; 0; 0; 0; 1]; [0; 0; 0; 0; 0]]%nat Demo.shipPos 1 4 = Some p /\
     p_success [[0; 0; 0; 0; 2]; [0; 0; 0; 0; 0]]%nat Demo.shipPos 1 4 = Some p' /\
     p <= p') /\
  (exists p p',
     p_success [[0; 0; 0; 0; 4]; [0; 0; 0; 0; 0]]%nat Demo.shipPos 1 4 = Some p /\
     p_success [[0; 0; 0; 0; 5]; [0; 0; 0; 0; 0]]%nat Demo.shipPos 1 4 = Some p' /\
     p' < p).
Proof.
  split.
  - destruct (probability_monotone_up_to_order
                [[0; 0; 0; 0; 1]; [0; 0; 0; 0; 0]]%nat
                [[0; 0; 0; 0; 2]; [0; 0; 0; 0; 0]]%nat Demo.shipPos
                1 2 4 1 2 eq_refl eq_refl eq_refl eq_refl eq_refl eq_refl
                (le_S 1 1 (le_n 1)))
      as [p [p' [H [H' [Hrise _]]]]].
    exists p, p'. split; [exact H|]. split; [exact H'|].
    apply Hrise. simpl. lia.
  - destruct (probability_monotone_up_to_order
                [[0; 0; 0; 0; 4]; [0; 0; 0; 0; 0]]%nat
                [[0; 0; 0; 0; 5]; [0; 0; 0; 0; 0]]%nat Demo.shipPos
                1 2 4 4 5 eq_refl eq_refl eq_refl eq_refl eq_refl eq_refl
                (le_S 4 4 (le_n 4)))
      as [p [p' [H [H' [_ Hfall]]]]].
    exists p, p'. split; [exact H|]. split; [exact H'|].
    apply Hfall; simpl; lia.
Defined.

(** C4, as stated, fails: with one bomb the first ship of player 1 is
    rotated by pi and is destroyed with probability 1; with one more
    bomb on its position in a later round the rotation is 2 pi and the
    probability is 0. *)
Lemma destruction_not_permanent :
  (exists qc, build_circuit Demo.bomb_once Demo.shipPos 0 = Some qc /\
              rotation_on qc 0 = PI /\ measured qc 0 = Some 1) /\
  (exists qc', build_circuit Demo.bomb_twice Demo.shipPos 0 = Some qc' /\
               rotation_on qc' 0 = 2 * PI /\ measured qc' 0 = Some 0) /\
  1 <> 0.
Proof.
  split; [|split; [|lra]].
  - destruct (build_circuit_ship Demo.bomb_once Demo.shipPos 0 eq_refl eq_refl
                0 0 1 eq_refl eq_refl) as [qc [Hb [Hr Hm]]].
    change (INR 1) with (INR (0 + 1)) in Hr, Hm.
    rewrite rotation_full in Hr, Hm. rewrite sin2_half_PI in Hm.
    exists qc. auto.
  - destruct (build_circuit_ship Demo.bomb_twice Demo.shipPos 0 eq_refl eq_refl
                0 0 2 eq_refl eq_refl) as [qc' [Hb [Hr Hm]]].
    exists qc'. split; [assumption|]. split.
    + rewrite Hr. unfold frac. simpl. field.
    + rewrite Hm. f_equal. apply sin2_half_count_0. exists 1%nat. reflexivity.
Qed.

(** C4, amended.  When the attack count on a ship's position equals the
    ship's order index the rotation is pi and the probability of
    destruction is exactly 1; in general it is exactly 1 if and only if
    the count is an odd multiple of the order index, so it stays 1 in a
    later round only while no further bomb has landed on the position,
    or after an even number of further full flips. *)
Theorem probability_one_iff_odd_multiple (bomb shipPos : list (list nat))
    (player ship position count : nat) :
  ledger_ok bomb = true ->
  placement_ok shipPos = true ->
  ship_at shipPos player ship = Some position ->
  attacks_on bomb (opponent player) position = Some count ->
  exists p,
    p_success bomb shipPos player position = Some p /\
    (count = (ship + 1)%nat -> p = 1) /\
    (p = 1 <-> exists m : nat, count = ((ship + 1) * (2 * m + 1))%nat).
Proof.
  intros Hl Hp Hs Ha.
  exists (sin2_half (INR count * frac ship * PI)).
  split; [now apply p_success_ship|]. split.
  - intros ->. rewrite rotation_full. apply sin2_half_PI.
  - apply sin2_half_count_1.
Qed.

Lemma probability_one_iff_odd_multiple_witness :
  exists p,
    p_success Demo.bomb_twice Demo.shipPos 0 0 = Some p /\
    (2%nat = (0 + 1)%nat -> p = 1) /\
    (p = 1 <-> exists m : nat, 2%nat = ((0 + 1) * (2 * m + 1))%nat).
Proof.
  apply (probability_one_iff_odd_multiple Demo.bomb_twice Demo.shipPos 0 0 0 2);
    reflexivity.
Defined.

(** ** First ship against third ship *)

Lemma first_ship_probability (count : nat) :
  sin2_half (INR count * frac 0 * PI) = if Nat.odd count then 1 else 0.
Proof.
  destruct (Nat.odd count) eqn:E.
  - apply sin2_half_count_1. apply Nat.odd_spec in E as [m ->].
    exists m. simpl. lia.
  - apply sin2_half_count_0.
    assert (Hev : Nat.even count = true)
      by (rewrite <- Nat.negb_odd, E; reflexivity).
    apply Nat.even_spec in Hev as [m ->]. exists m. simpl. lia.
Qed.

Lemma third_ship_probability_lt_1 (count : nat) :
  Nat.odd count = true ->
  (sin2_half (INR count * frac 2 * PI) < 1 <-> count mod 3 <> 0%nat).
Proof.
  intros Hodd. pose proof (sin2_half_bounds (INR count * frac 2 * PI)) as Hb.
  pose proof (sin2_half_count_1 2 count) as H1. split.
  - intros Hlt Hmod. apply Nat.Div0.mod_divides in Hmod as [j Hj].
    assert (Hp : sin2_half (INR count * frac 2 * PI) = 1); [|lra].
    apply H1. subst count.
    rewrite Nat.odd_mul in Hodd. apply andb_prop in Hodd as [_ Hodd].
    apply Nat.odd_spec in Hodd as [m ->]. exists m. lia.
  - intros Hmod.
    assert (Hne : sin2_half (INR count * frac 2 * PI) <> 1); [|lra].
    intros Hp. apply H1 in Hp as [m ->]. apply Hmod.
    replace ((2 + 1) * (2 * m + 1))%nat with ((2 * m + 1) * 3)%nat by lia.
    apply Nat.Div0.mod_mul.
Qed.

Lemma sin2_half_two_thirds : sin2_half (INR 2 * frac 2 * PI) = 3 / 4.
Proof.
  unfold sin2_half, frac. change (INR (2 + 1)) with (INR 3).
  replace (INR 2 * (1 / INR 3) * PI / 2) with (PI / 3) by (simpl; field).
  rewrite sin_PI3. unfold Rdiv. rewrite Rsqr_mult, Rsqr_sqrt by lra.
  unfold Rsqr. lra.
Qed.

(** C5, as stated, fails: after two bombs each, the first ship is back
    at probability 0 while the third ship stands at 3/4. *)
Lemma first_ship_not_always_likelier :
  attacks_on Demo.bomb_pair (opponent 0) 0 = Some 2%nat /\
  attacks_on Demo.bomb_pair (opponent 0) 2 = Some 2%nat /\
  p_success Demo.bomb_pair Demo.shipPos 0 0 = Some 0 /\
  p_success Demo.bomb_pair Demo.shipPos 0 2 = Some (3 / 4) /\
  ~ 3 / 4 < 0.
Proof.
  split; [reflexivity|]. split; [reflexivity|]. split; [|split; [|lra]].
  - rewrite (p_success_ship Demo.bomb_pair Demo.shipPos 0 eq_refl eq_refl 0 0 2)
      by reflexivity.
    f_equal. apply sin2_half_count_0. exists 1%nat. reflexivity.
  - rewrite (p_success_ship Demo.bomb_pair Demo.shipPos 0 eq_refl eq_refl 2 2 2)
      by reflexivity.
    f_equal. apply sin2_half_two_thirds.
Qed.

(** C5, amended.  For every equal attack count k >= 1, the rotation of
    a ship with order index 1 is exactly 3 times that of a ship with
    order index 3, and its probability of destruction is strictly
    higher exactly when k is odd and not a multiple of 3 (so for k = 1:
    1 against 1/4). *)
Theorem first_ship_rotates_three_times_third (bomb shipPos : list (list nat))
    (player first third k : nat) :
  ledger_ok bomb = true ->
  placement_ok shipPos = true ->
  ship_at shipPos player 0 = Some first ->
  ship_at shipPos player 2 = Some third ->
  attacks_on bomb (opponent player) first = Some k ->
  attacks_on bomb (opponent player) third = Some k ->
  (1 <= k)%nat ->
  exists qc p1 p3,
    build_circuit bomb shipPos player = Some qc /\
    rotation_on qc first = 3 * rotation_on qc third /\
    measured qc first = Some p1 /\
    measured qc third = Some p3 /\
    (p3 < p1 <-> Nat.odd k = true /\ k mod 3 <> 0%nat).
Proof.
  intros Hl Hp Hs1 Hs3 Ha1 Ha3 Hk.
  destruct (build_circuit_ship _ _ _ Hl Hp _ _ _ Hs1 Ha1) as [qc [Hb [Hr1 Hm1]]].
  destruct (build_circuit_ship _ _ _ Hl Hp _ _ _ Hs3 Ha3) as [qc' [Hb' [Hr3 Hm3]]].
  rewrite Hb in Hb'. injection Hb' as <-.
  exists qc, (sin2_half (INR k * frac 0 * PI)), (sin2_half (INR k * frac 2 * PI)).
  repeat (split; [assumption|]). split; [|split; [assumption|split; [assumption|]]].
  - rewrite Hr1, Hr3. unfold frac. simpl. field.
  - rewrite first_ship_probability.
    pose proof (sin2_half_bounds (INR k * frac 2 * PI)) as Hbd.
    destruct (Nat.odd k) eqn:Hodd.
    + rewrite (third_ship_probability_lt_1 _ Hodd). tauto.
    + split; [lra|]. intros [Hf _]. discriminate.
Qed.

Lemma first_ship_rotates_three_times_third_witness :
  exists qc p1 p3,
    build_circuit Demo.bomb_pair Demo.shipPos 0 = Some qc /\
    rotation_on qc 0 = 3 * rotation_on qc 2 /\
    measured qc 0 = Some p1 /\
    measured qc 2 = Some p3 /\
    (p3 < p1 <-> Nat.odd 2 = true /\ 2 mod 3 <> 0%nat).
Proof.
  apply (first_ship_rotates_three_times_third Demo.bomb_pair Demo.shipPos
           0 0 2 2); try reflexivity; simpl; lia.
Defined.

(** ** Frame: what a player's circuit does not depend on *)

Lemma length_set_nth {A : Type} (l : list A) (i : nat) (a : A) :
  length (set_nth l i a) = length l.
Proof.
  revert i. induction l as [|h t IH]; intros [|i]; simpl; auto.
Qed.

Lemma nth_error_set_nth_eq {A : Type} (l : list A) (i : nat) (a : A) :
  (i < length l)%nat -> nth_error (set_nth l i a) i = Some a.
Proof.
  revert i. induction l as [|h t IH]; intros [|i] Hi; simpl in *;
    try lia; auto.
  apply IH. lia.
Qed.

Lemma nth_error_set_nth_neq {A : Type} (l : list A) (i j : nat) (a : A) :
  i <> j -> nth_error (set_nth l i a) j = nth_error l j.
Proof.
  revert i j. induction l as [|h t IH]; intros [|i] [|j] Hne; simpl;
    try reflexivity; try congruence.
  apply IH. congruence.
Qed.

Lemma nth_set_nth_neq (l : list nat) (i j a : nat) :
  i <> j -> nth j (set_nth l i a) 0%nat = nth j l 0%nat.
Proof.
  revert i j. induction l as [|h t IH]; intros [|i] [|j] Hne; simpl;
    try reflexivity; try congruence.
  apply IH. congruence.
Qed.

Lemma set_count_row (bomb : list (list nat)) (attacker position count : nat)
    (row : list nat) :
  nth_error bomb attacker = Some row ->
  nth_error (set_count bomb attacker position count) attacker
  = Some (set_nth row position count).
Proof.
  intros Hr. unfold set_count. rewrite Hr. apply nth_error_set_nth_eq.
  apply nth_error_Some. congruence.
Qed.

Lemma set_count_other_row (bomb : list (list nat))
    (attacker attacker' position count : nat) :
  attacker <> attacker' ->
  nth_error (set_count bomb attacker position count) attacker'
  = nth_error bomb attacker'.
Proof.
  intros Hne. unfold set_count.
  destruct (nth_error bomb attacker); [|reflexivity].
  now apply nth_error_set_nth_neq.
Qed.

Lemma position_gates_empty (ships : list nat) (count position : nat) :
  ~ In position ships -> position_gates ships count position = [].
Proof.
  intros Hnin. unfold position_gates. rewrite ship_gates_empty by assumption.
  induction (Py.range count) as [|x l IH]; simpl; auto.
Qed.

Lemma bomb_gates_empty_position (ships row row' : list nat) (empty : nat) :
  ~ In empty ships ->
  (forall position, position <> empty ->
     nth position row 0%nat = nth position row' 0%nat) ->
  bomb_gates ships row = bomb_gates ships row'.
Proof.
  intros Hnin Hsame. unfold bomb_gates. apply flat_map_ext. intros position.
  destruct (Nat.eq_dec position empty) as [->|Hne].
  - now rewrite !position_gates_empty.
  - now rewrite Hsame.
Qed.

(** C6.  Bombs recorded on a position that holds no ship of the
    defending player rotate no qubit: whatever count the ledger holds
    there, the circuit of that player, and so the probability read at
    every position, is the one built with a count of zero, and the
    rotation of the qubit at the empty position is zero. *)
Theorem bombs_on_empty_position_have_no_effect (bomb shipPos : list (list nat))
    (player empty old count : nat) (ships : list nat) :
  ledger_ok bomb = true ->
  nth_error shipPos player = Some ships ->
  length ships = 3%nat ->
  attacks_on bomb (opponent player) empty = Some old ->
  ~ In empty ships ->
  exists qc,
    build_circuit (set_count bomb (opponent player) empty count) shipPos player
    = Some qc /\
    build_circuit (set_count bomb (opponent player) empty 0) shipPos player
    = Some qc /\
    rotation_on qc empty = 0 /\
    forall position,
      p_success (set_count bomb (opponent player) empty count) shipPos
        player position
      = p_success (set_count bomb (opponent player) empty 0) shipPos
          player position.
Proof.
  intros Hl Hs Hl3 Ha Hnin.
  destruct (attacks_on_row _ _ _ _ Hl Ha) as [row [Hr [Hl5 [_ He]]]].
  assert (Hb : forall c,
    build_circuit (set_count bomb (opponent player) empty c) shipPos player
    = Some (bomb_gates ships (set_nth row empty 0%nat) ++ measure_gates)).
  { intros c.
    rewrite (build_circuit_gates _ _ _ (set_nth row empty c) ships);
      try assumption.
    - do 2 f_equal. apply (bomb_gates_empty_position _ _ _ empty Hnin).
      intros position Hne. rewrite !nth_set_nth_neq; congruence.
    - now apply set_count_row.
    - now rewrite length_set_nth. }
  exists (bomb_gates ships (set_nth row empty 0%nat) ++ measure_gates).
  split; [apply Hb|]. split; [apply Hb|]. split.
  - rewrite rotation_on_app, rotation_on_measure_gates,
      rotation_on_bomb_gates by assumption.
    rewrite ship_gates_empty by assumption. simpl. lra.
  - intros position. unfold p_success. now rewrite !Hb.
Qed.

Lemma bombs_on_empty_position_have_no_effect_witness :
  exists qc,
    build_circuit (set_count Demo.bomb1 (opponent 1) 0 7) Demo.shipPos 1
    = Some qc /\
    build_circuit (set_count Demo.bomb1 (opponent 1) 0 0) Demo.shipPos 1
    = Some qc /\
    rotation_on qc 0 = 0 /\
    forall position,
      p_success (set_count Demo.bomb1 (opponent 1) 0 7) Demo.shipPos 1 position
      = p_success (set_count Demo.bomb1 (opponent 1) 0 0) Demo.shipPos 1 position.
Proof.
  apply (bombs_on_empty_position_have_no_effect Demo.bomb1 Demo.shipPos
           1 0 1 7 [2; 3; 4]%nat); try reflexivity.
  simpl. lia.
Defined.

(** C10.  The circuit built for a player's grid reads the ledger only
    through the row of the opponent: two ledgers that agree on that row,
    however they differ in the player's own row, give the same circuit
    (or the same failure), hence the same probability at every position
    and the same possible results. *)
Theorem own_attacks_do_not_affect_own_grid (bomb bomb' shipPos : list (list nat))
    (player : nat) :
  nth_error bomb (opponent player) = nth_error bomb' (opponent player) ->
  build_circuit bomb shipPos player = build_circuit bomb' shipPos player /\
  (forall position,
     p_success bomb shipPos player position
     = p_success bomb' shipPos player position) /\
  (forall qc N grid,
     build_circuit bomb shipPos player = Some qc ->
     possible_grid qc N grid ->
     exists qc',
       build_circuit bomb' shipPos player = Some qc' /\
       possible_grid qc' N grid).
Proof.
  intros Hrow.
  assert (Hb : build_circuit bomb shipPos player
               = build_circuit bomb' shipPos player).
  { unfold build_circuit, add_bombs. unfold opponent in Hrow.
    now rewrite Hrow. }
  split; [exact Hb|]. split.
  - intros position. unfold p_success. now rewrite Hb.
  - intros qc N grid Hq Hg. exists qc. split; [now rewrite <- Hb|assumption].
Qed.

Lemma own_attacks_do_not_affect_own_grid_witness :
  build_circuit Demo.bomb1 Demo.shipPos 0
  = build_circuit [[4; 0; 9; 1; 1]; [0; 1; 0; 0; 0]]%nat Demo.shipPos 0 /\
  (forall position,
     p_success Demo.bomb1 Demo.shipPos 0 position
     = p_success [[4; 0; 9; 1; 1]; [0; 1; 0; 0; 0]]%nat Demo.shipPos 0 position) /\
  (forall qc N grid,
     build_circuit Demo.bomb1 Demo.shipPos 0 = Some qc ->
     possible_grid qc N grid ->
     exists qc',
       build_circuit [[4; 0; 9; 1; 1]; [0; 1; 0; 0; 0]]%nat Demo.shipPos 0
       = Some qc' /\
       possible_grid qc' N grid).
Proof.
  apply (own_attacks_do_not_affect_own_grid
           Demo.bomb1 [[4; 0; 9; 1; 1]; [0; 1; 0; 0; 0]]%nat Demo.shipPos 0).
  reflexivity.
Defined.

(** ** The ledger across rounds *)

Lemma attacks_on_set_count (bomb : list (list nat))
    (attacker position count attacker' position' old : nat) :
  attacks_on bomb attacker position = Some old ->
  attacks_on (set_count bomb attacker position count) attacker' position'
  = if Nat.eqb attacker' attacker && Nat.eqb position' position
    then Some count
    else attacks_on bomb attacker' position'.
Proof.
  intros Ha. unfold attacks_on in *.
  destruct (nth_error bomb attacker) as [row|] eqn:Er; [|discriminate].
  simpl in Ha.
  destruct (Nat.eqb attacker' attacker) eqn:Ea.
  - apply Nat.eqb_eq in Ea. subst attacker'.
    rewrite (set_count_row _ _ _ _ _ Er), Er. simpl.
    destruct (Nat.eqb position' position) eqn:Ep.
    + apply Nat.eqb_eq in Ep. subst position'.
      apply nth_error_set_nth_eq, nth_error_Some. congruence.
    + apply Nat.eqb_neq in Ep. apply nth_error_set_nth_neq. congruence.
  - apply Nat.eqb_neq in Ea. simpl.
    rewrite set_count_other_row by congruence. reflexivity.
Qed.

Lemma record_attack_counts (bomb bomb' : list (list nat))
    (attacker position attacker' position' count : nat) :
  Engine.record_attack bomb attacker position = Some bomb' ->
  attacks_on bomb attacker' position' = Some count ->
  attacks_on bomb' attacker' position'
  = Some (if Nat.eqb attacker' attacker && Nat.eqb position' position
          then (count + 1)%nat else count).
Proof.
  unfold Engine.record_attack. intros Hrec Ha.
  destruct (Nat.ltb position 5); [|discriminate].
  destruct (nth_error bomb attacker) as [row|] eqn:Er; [|discriminate].
  simpl in Hrec.
  destruct (nth_error row position) as [old|] eqn:Eo; [|discriminate].
  simpl in Hrec. injection Hrec as <-.
  assert (Hold : attacks_on bomb attacker position = Some old)
    by (unfold attacks_on; rewrite Er; exact Eo).
  rewrite (attacks_on_set_count _ _ _ _ _ _ _ Hold).
  destruct (Nat.eqb attacker' attacker && Nat.eqb position' position) eqn:E;
    [|assumption].
  apply andb_prop in E as [E1 E2].
  apply Nat.eqb_eq in E1, E2. subst. congruence.
Qed.

Lemma ask_for_bombs_counts (bomb bomb' : list (list nat)) (targets : nat * nat)
    (attacker position count : nat) :
  Engine.ask_for_bombs bomb targets = Some bomb' ->
  attacks_on bomb attacker position = Some count ->
  attacks_on bomb' attacker position
  = Some (count + Engine.times_targeted [targets] attacker position)%nat.
Proof.
  unfold Engine.ask_for_bombs. intros Hask Ha.
  destruct (Engine.record_attack bomb 0 (fst targets)) as [bomb1|] eqn:E1;
    [|discriminate].
  simpl in Hask.
  pose proof (record_attack_counts _ _ _ _ _ _ _ E1 Ha) as H1.
  rewrite (record_attack_counts _ _ _ _ _ _ _ Hask H1). f_equal.
  unfold Engine.times_targeted. simpl.
  rewrite (Nat.eqb_sym (fst targets)), (Nat.eqb_sym (snd targets)).
  destruct attacker as [|[|attacker]]; simpl;
    destruct (Nat.eqb position (fst targets));
    destruct (Nat.eqb position (snd targets)); simpl; lia.
Qed.

(** C8.  Across any sequence of rounds the count of every (player,
    position) cell of the ledger is its old value plus the number of
    rounds in which that player chose that position: recording an
    attack adds exactly 1 to the targeted cell, and no count ever
    decreases. *)
Theorem attack_counts_never_decrease (rounds : list (nat * nat))
    (bomb bomb' : list (list nat)) (attacker position count : nat) :
  Engine.play_rounds rounds bomb = Some bomb' ->
  attacks_on bomb attacker position = Some count ->
  exists count',
    attacks_on bomb' attacker position = Some count' /\
    count' = (count + Engine.times_targeted rounds attacker position)%nat /\
    (count <= count')%nat.
Proof.
  unfold Engine.play_rounds.
  revert bomb count. induction rounds as [|targets rounds IH];
    intros bomb count Hplay Ha.
  - simpl in Hplay. injection Hplay as <-. exists count.
    split; [assumption|]. unfold Engine.times_targeted. simpl. lia.
  - simpl in Hplay.
    destruct (Engine.ask_for_bombs bomb targets) as [bomb1|] eqn:E1;
      [|discriminate].
    simpl in Hplay.
    pose proof (ask_for_bombs_counts _ _ _ _ _ _ E1 Ha) as H1.
    destruct (IH _ _ Hplay H1) as [count' [Hc [Heq Hle]]].
    exists count'. split; [assumption|].
    unfold Engine.times_targeted in *. simpl in *.
    destruct (match attacker with
              | 0%nat => Nat.eqb (fst targets) position
              | 1%nat => Nat.eqb (snd targets) position
              | _ => false
              end); simpl in *; lia.
Qed.

Lemma attack_counts_never_decrease_witness :
  Engine.play_rounds [(0, 1); (2, 4); (3, 1)]%nat bomb_init
  = Some [[1; 0; 1; 1; 0]; [0; 2; 0; 0; 1]]%nat /\
  exists count',
    attacks_on [[1; 0; 1; 1; 0]; [0; 2; 0; 0; 1]]%nat 1 1 = Some count' /\
    count' = (0 + Engine.times_targeted [(0, 1); (2, 4); (3, 1)]%nat 1 1)%nat /\
    (0 <= count')%nat.
Proof.
  split; [reflexivity|].
  apply (attack_counts_never_decrease [(0, 1); (2, 4); (3, 1)]%nat bomb_init
           [[1; 0; 1; 1; 0]; [0; 2; 0; 0; 1]]%nat 1 1 0); reflexivity.
Defined.

(** ** The report of a round *)

(** C9.  If in a round's report all three ships of both players are
    destroyed, the game is over and the report is a draw: it names no
    winner. *)
Theorem both_fleets_destroyed_is_draw (bomb shipPos : list (list nat))
    (N : nat) (grids : list (list shot)) :
  Engine.fleet_destroyed bomb shipPos N grids 0 = true ->
  Engine.fleet_destroyed bomb shipPos N grids 1 = true ->
  Engine.termination_check bomb shipPos N grids = Engine.GameOver Engine.Draw /\
  (forall player,
     Engine.termination_check bomb shipPos N grids
     <> Engine.GameOver (Engine.Winner player)) /\
  Engine.display_grid bomb shipPos N grids = false.
Proof.
  intros H0 H1. unfold Engine.display_grid, Engine.termination_check.
  rewrite H0, H1. repeat split. intros player. discriminate.
Qed.

Lemma both_fleets_destroyed_is_draw_witness :
  Engine.fleet_destroyed Demo.bomb_all Demo.shipPos 1 Demo.grids_all 0 = true /\
  Engine.fleet_destroyed Demo.bomb_all Demo.shipPos 1 Demo.grids_all 1 = true /\
  Engine.termination_check Demo.bomb_all Demo.shipPos 1 Demo.grids_all
  = Engine.GameOver Engine.Draw /\
  (forall player,
     Engine.termination_check Demo.bomb_all Demo.shipPos 1 Demo.grids_all
     <> Engine.GameOver (Engine.Winner player)) /\
  Engine.display_grid Demo.bomb_all Demo.shipPos 1 Demo.grids_all = false.
Proof.
  split; [reflexivity|]. split; [reflexivity|].
  apply (both_fleets_destroyed_is_draw Demo.bomb_all Demo.shipPos 1
           Demo.grids_all); reflexivity.
Defined.

(** ** When the loop raises *)

Lemma for_each_fail {A S : Type} (body : A -> S -> option S) (xs : list A)
    (x : A) :
  In x xs -> (forall s, body x s = None) ->
  forall s, Py.for_each xs body s = None.
Proof.
  intros Hin Hfail. induction xs as [|y xs IH]; intros s; [contradiction|].
  simpl. destruct Hin as [->|Hin].
  - now rewrite Hfail.
  - destruct (body y s); simpl; auto.
Qed.

Lemma forallb_false_witness {A : Type} (f : A -> bool) (l : list A) :
  forallb f l = false -> exists x, In x l /\ f x = false.
Proof.
  induction l as [|y l IH]; simpl; [discriminate|].
  destruct (f y) eqn:E; simpl.
  - intros H. destruct (IH H) as [x [Hin Hx]]. exists x. auto.
  - intros _. exists y. auto.
Qed.

Lemma ship_loop_gates_ge (shipPos : list (list nat)) (player position : nat)
    (ships : list nat) (qc : circuit) :
  nth_error shipPos player = Some ships ->
  (3 <= length ships)%nat ->
  Py.for_each [0; 1; 2]%nat (fun ship qc =>
    ships <- nth_error shipPos player ;;
    s <- nth_error ships ship ;;
    if Nat.eqb position s then
      let frac := 1 / INR (ship + 1) in
      Some (qc ++ [u3 (frac * PI) 0 0 position])
    else Some qc) qc
  = Some (qc ++ ship_gates ships position).
Proof.
  intros Hs Hlen. unfold ship_gates.
  apply for_each_append. intros ship Hin s. rewrite Hs. simpl.
  destruct (nth_error ships ship) as [p|] eqn:E.
  - simpl. destruct (Nat.eqb position p); [reflexivity|now rewrite app_nil_r].
  - apply nth_error_None in E. simpl in Hin. lia.
Qed.

Lemma ship_loop_fails (shipPos : list (list nat)) (player position : nat)
    (qc : circuit) :
  (forall ships, nth_error shipPos player = Some ships ->
     (length ships < 3)%nat) ->
  Py.for_each [0; 1; 2]%nat (fun ship qc =>
    ships <- nth_error shipPos player ;;
    s <- nth_error ships ship ;;
    if Nat.eqb position s then
      let frac := 1 / INR (ship + 1) in
      Some (qc ++ [u3 (frac * PI) 0 0 position])
    else Some qc) qc
  = None.
Proof.
  intros Hshort.
  destruct (nth_error shipPos player) as [ships|] eqn:Hs.
  - specialize (Hshort ships eq_refl).
    apply (for_each_fail _ _ (length ships)).
    + simpl. lia.
    + intros s. simpl.
      now rewrite (proj2 (nth_error_None ships (length ships)) (le_n _)).
  - apply (for_each_fail _ _ 0%nat); [now left|reflexivity].
Qed.

Lemma add_bombs_gates_ge (bomb shipPos : list (list nat)) (player : nat)
    (row ships : list nat) (qc : circuit) :
  nth_error bomb (opponent player) = Some row ->
  (5 <= length row)%nat ->
  nth_error shipPos player = Some ships ->
  (3 <= length ships)%nat ->
  add_bombs bomb shipPos player qc = Some (qc ++ bomb_gates ships row).
Proof.
  intros Hrow Hlen Hs Hlen3. unfold add_bombs, bomb_gates.
  apply for_each_append. intros position Hin s.
  unfold opponent in Hrow. rewrite Hrow. simpl.
  destruct (nth_error row position) as [count|] eqn:E.
  - simpl. rewrite (nth_error_nth _ _ _ E). unfold position_gates.
    apply for_each_append. intros _ _ s'.
    now apply ship_loop_gates_ge.
  - apply nth_error_None in E. unfold Py.range in Hin.
    apply in_seq in Hin. lia.
Qed.

Lemma add_bombs_unbombed (bomb shipPos : list (list nat)) (player : nat)
    (row : list nat) (qc : circuit) :
  nth_error bomb (opponent player) = Some row ->
  firstn 5 row = repeat 0%nat 5 ->
  add_bombs bomb shipPos player qc = Some qc.
Proof.
  intros Hrow Hzero. unfold add_bombs.
  rewrite (for_each_append (fun _ => [])).
  - f_equal. rewrite <- (app_nil_r qc) at 2. f_equal.
    induction (Py.range 5) as [|x l IH]; simpl; auto.
  - intros position Hin s. unfold opponent in Hrow. rewrite Hrow. simpl.
    unfold Py.range in Hin. apply in_seq in Hin.
    assert (Hlen : length (firstn 5 row) = 5%nat) by now rewrite Hzero.
    rewrite length_firstn in Hlen.
    rewrite (nth_error_nth' row 0%nat) by lia. simpl.
    assert (Hn : nth position row 0%nat = 0%nat).
    { pose proof (nth_firstn 5 row position 0%nat) as Hf.
      rewrite Hzero in Hf.
      destruct (Nat.ltb_spec position 5) as [_|]; [|lia].
      rewrite <- Hf. destruct Hin as [_ Hin]. simpl in Hin.
      do 5 (destruct position as [|position]; [reflexivity|]). lia. }
    rewrite Hn. simpl. now rewrite app_nil_r.
Qed.

Lemma add_bombs_fails_row (bomb shipPos : list (list nat)) (player : nat)
    (qc : circuit) :
  (forall row, nth_error bomb (opponent player) = Some row ->
     (length row < 5)%nat) ->
  add_bombs bomb shipPos player qc = None.
Proof.
  intros Hshort. unfold add_bombs. unfold opponent in Hshort.
  destruct (nth_error bomb ((player + 1) mod 2)) as [row|] eqn:Hr.
  - specialize (Hshort row eq_refl).
    apply (for_each_fail _ _ (length row)).
    + unfold Py.range. apply in_seq. lia.
    + intros s. simpl.
      now rewrite (proj2 (nth_error_None row (length row)) (le_n _)).
  - apply (for_each_fail _ _ 0%nat); [now left|reflexivity].
Qed.

Lemma add_bombs_fails_ships (bomb shipPos : list (list nat)) (player : nat)
    (row : list nat) (qc : circuit) :
  nth_error bomb (opponent player) = Some row ->
  firstn 5 row <> repeat 0%nat 5 ->
  (5 <= length row)%nat ->
  (forall ships, nth_error shipPos player = Some ships ->
     (length ships < 3)%nat) ->
  add_bombs bomb shipPos player qc = None.
Proof.
  intros Hrow Hnz Hlen Hshort.
  assert (Hex : exists position, (position < 5)%nat /\
                                 nth position row 0%nat <> 0%nat).
  { destruct (forallb (fun p => Nat.eqb (nth p row 0%nat) 0) (Py.range 5))
      eqn:E.
    - exfalso. apply Hnz. rewrite forallb_forall in E.
      assert (Hp : forall p, (p < 5)%nat -> nth p row 0%nat = 0%nat).
      { intros p Hp. apply Nat.eqb_eq, E. unfold Py.range. apply in_seq. lia. }
      destruct row as [|r0 [|r1 [|r2 [|r3 [|r4 row]]]]]; simpl in Hlen; try lia.
      pose proof (Hp 0%nat). pose proof (Hp 1%nat). pose proof (Hp 2%nat).
      pose proof (Hp 3%nat). pose proof (Hp 4%nat). simpl in *.
      repeat f_equal; lia.
    - apply forallb_false_witness in E as [p [Hin Hp]].
      unfold Py.range in Hin. apply in_seq in Hin.
      apply Nat.eqb_neq in Hp. exists p. split; [lia|assumption]. }
  destruct Hex as [position [Hp Hc]].
  unfold add_bombs. apply (for_each_fail _ _ position).
  - unfold Py.range. apply in_seq. lia.
  - intros s. unfold opponent in Hrow. rewrite Hrow. simpl.
    rewrite (nth_error_nth' row 0%nat) by lia. simpl.
    destruct (nth position row 0%nat) as [|count]; [congruence|].
    apply (for_each_fail _ _ 0%nat).
    + unfold Py.range. apply in_seq. lia.
    + intros s'. now apply ship_loop_fails.
Qed.

Lemma build_circuit_inv (bomb shipPos : list (list nat)) (player : nat)
    (qc : circuit) :
  build_circuit bomb shipPos player = Some qc ->
  exists row,
    nth_error bomb (opponent player) = Some row /\
    (5 <= length row)%nat /\
    ((firstn 5 row = repeat 0%nat 5 /\ qc = measure_gates) \/
     (exists ships,
        nth_error shipPos player = Some ships /\
        (3 <= length ships)%nat /\
        qc = bomb_gates ships row ++ measure_gates)).
Proof.
  unfold build_circuit. intros Hb.
  destruct (nth_error bomb (opponent player)) as [row|] eqn:Hr.
  2:{ rewrite add_bombs_fails_row in Hb; [discriminate|].
      intros row Hrow. congruence. }
  destruct (le_lt_dec 5 (length row)) as [Hlen|Hlen].
  2:{ rewrite add_bombs_fails_row in Hb; [discriminate|].
      intros row' Hrow. congruence. }
  exists row. split; [reflexivity|]. split; [assumption|].
  destruct (list_eq_dec Nat.eq_dec (firstn 5 row) (repeat 0%nat 5)) as [Hz|Hnz].
  - left. split; [assumption|].
    rewrite (add_bombs_unbombed _ _ _ _ _ Hr Hz) in Hb. simpl in Hb.
    rewrite add_measures_gates in Hb. now injection Hb as <-.
  - right. destruct (nth_error shipPos player) as [ships|] eqn:Hs.
    + destruct (le_lt_dec 3 (length ships)) as [Hl3|Hl3].
      * exists ships. split; [reflexivity|]. split; [assumption|].
        rewrite (add_bombs_gates_ge _ _ _ _ _ _ Hr Hlen Hs Hl3) in Hb.
        simpl in Hb. rewrite add_measures_gates in Hb. now injection Hb as <-.
      * rewrite (add_bombs_fails_ships _ _ _ row) in Hb; try assumption;
          [discriminate|].
        intros ships' Hs'. congruence.
    + rewrite (add_bombs_fails_ships _ _ _ row) in Hb; try assumption;
        [discriminate|].
      intros ships' Hs'. congruence.
Qed.

(** X1.  The construction of a player's circuit raises no [IndexError]
    exactly when the opponent's row of the ledger exists and has at
    least five entries, and either its first five counts are all zero
    (the placement is then never read) or the player's placement exists
    and has at least three entries. *)
Theorem build_circuit_succeeds_iff (bomb shipPos : list (list nat))
    (player : nat) :
  build_circuit bomb shipPos player <> None <->
  exists row,
    nth_error bomb (opponent player) = Some row /\
    (5 <= length row)%nat /\
    (firstn 5 row = repeat 0%nat 5 \/
     exists ships,
       nth_error shipPos player = Some ships /\ (3 <= length ships)%nat).
Proof.
  split.
  - intros Hne.
    destruct (build_circuit bomb shipPos player) as [qc|] eqn:Hb;
      [|congruence].
    destruct (build_circuit_inv _ _ _ _ Hb) as [row [Hr [Hlen Hcase]]].
    exists row. split; [assumption|]. split; [assumption|].
    destruct Hcase as [[Hz _]|[ships [Hs [Hl3 _]]]]; [now left|].
    right. exists ships. auto.
  - intros [row [Hr [Hlen Hcase]]]. unfold build_circuit.
    destruct Hcase as [Hz|[ships [Hs Hl3]]].
    + rewrite (add_bombs_unbombed _ _ _ _ _ Hr Hz). simpl.
      rewrite add_measures_gates. discriminate.
    + rewrite (add_bombs_gates_ge _ _ _ _ _ _ Hr Hlen Hs Hl3). simpl.
      rewrite add_measures_gates. discriminate.
Qed.

(** ** Shape of the circuit *)

Lemma bomb_gates_shape (ships row : list nat) :
  Forall (fun i => exists ship position,
            i = u3 (1 / INR (ship + 1) * PI) 0 0 position /\
            (ship < 3)%nat /\ (position < 5)%nat /\
            nth_error ships ship = Some position /\
            (0 < nth position row 0%nat)%nat)
    (bomb_gates ships row).
Proof.
  unfold bomb_gates. apply Forall_flat_map, Forall_forall.
  intros position Hp. unfold Py.range in Hp. apply in_seq in Hp.
  unfold position_gates. apply Forall_flat_map, Forall_forall.
  intros n Hn. unfold Py.range in Hn. apply in_seq in Hn.
  unfold ship_gates. apply Forall_flat_map, Forall_forall.
  intros ship Hship.
  destruct (nth_error ships ship) as [s|] eqn:Es; [|constructor].
  destruct (Nat.eqb position s) eqn:E; [|constructor].
  apply Nat.eqb_eq in E. subst s. constructor; [|constructor].
  exists ship, position. repeat split; try assumption; try lia.
  simpl in Hship. lia.
Qed.

(** X2.  A circuit the loop builds is a sequence of gates
    [u3(pi/(ship+1), 0, 0, q[position])], each for a ship of the player
    placed on a position of the board that the opponent has bombed at
    least once, followed by the five measurements [q[i] -> c[i]] in
    order: no other qubit is ever rotated and nothing follows a
    measurement. *)
Theorem build_circuit_shape (bomb shipPos : list (list nat)) (player : nat)
    (qc : circuit) :
  build_circuit bomb shipPos player = Some qc ->
  exists gates,
    qc = gates ++ [measure 0 0; measure 1 1; measure 2 2; measure 3 3;
                   measure 4 4] /\
    Forall (fun i => exists ship position count,
              i = u3 (1 / INR (ship + 1) * PI) 0 0 position /\
              (ship < 3)%nat /\ (position < 5)%nat /\
              ship_at shipPos player ship = Some position /\
              attacks_on bomb (opponent player) position = Some count /\
              (0 < count)%nat) gates.
Proof.
  intros Hb.
  destruct (build_circuit_inv _ _ _ _ Hb)
    as [row [Hr [Hlen [[_ ->]|[ships [Hs [Hl3 ->]]]]]]].
  - exists []. split; [reflexivity|constructor].
  - exists (bomb_gates ships row). split; [reflexivity|].
    eapply Forall_impl; [|apply bomb_gates_shape].
    intros i [ship [position [-> [H3 [H5 [Hn Hc]]]]]].
    exists ship, position, (nth position row 0%nat).
    repeat split; try assumption.
    + unfold ship_at. now rewrite Hs.
    + unfold attacks_on. rewrite Hr. simpl.
      apply nth_error_nth'. lia.
Qed.

Lemma build_circuit_shape_witness :
  exists gates,
    [u3 (1 / INR (1 + 1) * PI) 0 0 1;
     measure 0 0; measure 1 1; measure 2 2; measure 3 3; measure 4 4]
    = gates ++ [measure 0 0; measure 1 1; measure 2 2; measure 3 3;
                measure 4 4] /\
    Forall (fun i => exists ship position count,
              i = u3 (1 / INR (ship + 1) * PI) 0 0 position /\
              (ship < 3)%nat /\ (position < 5)%nat /\
              ship_at Demo.shipPos 0 ship = Some position /\
              attacks_on Demo.bomb1 (opponent 0) position = Some count /\
              (0 < count)%nat) gates.
Proof.
  apply (build_circuit_shape Demo.bomb1 Demo.shipPos 0). reflexivity.
Defined.

(** ** What a shot reads, for any circuit of the loop *)

Lemma measured_ry_gates (gates : circuit) (c : nat) :
  Forall is_ry gates ->
  measured (gates ++ measure_gates) c =
  if Nat.ltb c 5
  then Some (sin2_half (rotation_on (gates ++ measure_gates) c))
  else None.
Proof.
  intros Hry. unfold measured.
  destruct (exec_ry_gates gates measure_gates Hry (fun _ => ket0) (fun _ => 0)
              (fun _ => None)) as [st' [Hst' Hex]].
  { intros _. apply ket0_ry_state. }
  rewrite Hex. destruct (Nat.ltb_spec c 5) as [Hc|Hc].
  - rewrite exec_measure_gates by assumption.
    rewrite Hst', prob1_ry_state, rotation_on_app, rotation_on_measure_gates.
    f_equal. f_equal. lra.
  - do 5 (destruct c as [|c]; [lia|]). reflexivity.
Qed.

Lemma build_circuit_ry (bomb shipPos : list (list nat)) (player : nat)
    (qc : circuit) :
  build_circuit bomb shipPos player = Some qc ->
  exists gates, qc = gates ++ measure_gates /\ Forall is_ry gates.
Proof.
  intros Hb.
  destruct (build_circuit_inv _ _ _ _ Hb)
    as [row [Hr [Hlen [[_ ->]|[ships [Hs [Hl3 ->]]]]]]].
  - exists []. split; [reflexivity|constructor].
  - exists (bomb_gates ships row). split; [reflexivity|apply is_ry_bomb_gates].
Qed.

(** X3.  For every circuit the loop builds, with or without ships on
    distinct positions, a shot reads 1 at each of the positions 0..4
    with probability sin^2(r/2), r being the sum of the angles of the
    gates on that qubit; the probability lies between 0 and 1, and no
    classical bit beyond the five is ever written. *)
Theorem measured_of_built_circuit (bomb shipPos : list (list nat))
    (player : nat) (qc : circuit) (c : nat) :
  build_circuit bomb shipPos player = Some qc ->
  ((c < 5)%nat ->
     measured qc c = Some (Rsqr (sin (rotation_on qc c / 2))) /\
     0 <= Rsqr (sin (rotation_on qc c / 2)) <= 1) /\
  ((5 <= c)%nat -> measured qc c = None).
Proof.
  intros Hb. destruct (build_circuit_ry _ _ _ _ Hb) as [gates [-> Hry]].
  rewrite (measured_ry_gates gates c Hry). split.
  - intros Hc. apply Nat.ltb_lt in Hc. rewrite Hc.
    split; [reflexivity|apply sin2_half_bounds].
  - intros Hc. apply Nat.ltb_ge in Hc. now rewrite Hc.
Qed.

Lemma measured_of_built_circuit_witness :
  ((1 < 5)%nat ->
     measured
       [u3 (1 / INR (1 + 1) * PI) 0 0 1;
        measure 0 0; measure 1 1; measure 2 2; measure 3 3; measure 4 4] 1
     = Some (Rsqr (sin (rotation_on
          [u3 (1 / INR (1 + 1) * PI) 0 0 1;
           measure 0 0; measure 1 1; measure 2 2; measure 3 3; measure 4 4] 1
          / 2))) /\
     0 <= Rsqr (sin (rotation_on
          [u3 (1 / INR (1 + 1) * PI) 0 0 1;
           measure 0 0; measure 1 1; measure 2 2; measure 3 3; measure 4 4] 1
          / 2)) <= 1) /\
  ((5 <= 1)%nat ->
     measured
       [u3 (1 / INR (1 + 1) * PI) 0 0 1;
        measure 0 0; measure 1 1; measure 2 2; measure 3 3; measure 4 4] 1
     = None).
Proof.
  apply (measured_of_built_circuit Demo.bomb1 Demo.shipPos 0). reflexivity.
Defined.

(** X4.  While the opponent has bombed none of the five positions, the
    circuit of the player consists of the five measurements alone and
    every position reads 0 with certainty; the placement is not looked
    at, so this holds for any [shipPos], even an empty one. *)
Theorem unbombed_grid_is_measured_only (bomb shipPos : list (list nat))
    (player : nat) (row : list nat) :
  nth_error bomb (opponent player) = Some row ->
  firstn 5 row = repeat 0%nat 5 ->
  build_circuit bomb shipPos player
  = Some [measure 0 0; measure 1 1; measure 2 2; measure 3 3; measure 4 4] /\
  forall position, (position < 5)%nat ->
    p_success bomb shipPos player position = Some 0.
Proof.
  intros Hr Hz.
  assert (Hb : build_circuit bomb shipPos player = Some measure_gates).
  { unfold build_circuit. rewrite (add_bombs_unbombed _ _ _ _ _ Hr Hz).
    simpl. now rewrite add_measures_gates. }
  split; [exact Hb|].
  intros position Hp. unfold p_success. rewrite Hb. simpl.
  change measure_gates with ([] ++ measure_gates).
  rewrite (measured_ry_gates [] position (Forall_nil _)).
  apply Nat.ltb_lt in Hp. rewrite Hp. f_equal.
  simpl. apply sin2_half_0.
Qed.

Lemma unbombed_grid_is_measured_only_witness :
  build_circuit [[3; 1; 0; 0; 2]; [0; 0; 0; 0; 0]]%nat [] 0
  = Some [measure 0 0; measure 1 1; measure 2 2; measure 3 3; measure 4 4] /\
  forall position, (position < 5)%nat ->
    p_success [[3; 1; 0; 0; 2]; [0; 0; 0; 0; 0]]%nat [] 0 position = Some 0.
Proof.
  apply (unbombed_grid_is_measured_only
           [[3; 1; 0; 0; 2]; [0; 0; 0; 0; 0]]%nat [] 0 [0; 0; 0; 0; 0]%nat);
    reflexivity.
Defined.

(** ** Ships that share a position *)

Lemma rotation_on_ship_gates_fraction (ships : list nat) (position : nat) :
  rotation_on (ship_gates ships position) position
  = flip_fraction ships position * PI.
Proof.
  unfold ship_gates, flip_fraction.
  induction [0; 1; 2]%nat as [|ship l IH]; [simpl; lra|].
  cbn [flat_map map fold_right]. rewrite rotation_on_app, IH.
  destruct (nth_error ships ship) as [s|]; [|simpl; lra].
  destruct (Nat.eqb position s); simpl; rewrite ?Nat.eqb_refl; lra.
Qed.

(** X5.  Nothing in the loop requires the ships of a player to be on
    distinct positions: the rotation of a qubit is the count of bombs on
    its position times the sum of the fractions 1/(ship+1) of all the
    ships placed there, times pi (two ships on one position are flipped
    together, none gives no rotation), and the probability follows. *)
Theorem rotation_with_shared_positions (bomb shipPos : list (list nat))
    (player position count : nat) (row ships : list nat) :
  nth_error bomb (opponent player) = Some row ->
  (5 <= length row)%nat ->
  nth_error shipPos player = Some ships ->
  (3 <= length ships)%nat ->
  (position < 5)%nat ->
  nth_error row position = Some count ->
  exists qc,
    build_circuit bomb shipPos player = Some qc /\
    rotation_on qc position = INR count * flip_fraction ships position * PI /\
    measured qc position
    = Some (Rsqr (sin (INR count * flip_fraction ships position * PI / 2))).
Proof.
  intros Hr Hlen Hs Hl3 Hp Hc.
  exists (bomb_gates ships row ++ measure_gates).
  assert (Hrot : rotation_on (bomb_gates ships row ++ measure_gates) position
                 = INR count * flip_fraction ships position * PI).
  { rewrite rotation_on_app, rotation_on_measure_gates,
      rotation_on_bomb_gates by assumption.
    rewrite (nth_error_nth _ _ _ Hc), rotation_on_ship_gates_fraction. lra. }
  split.
  - unfold build_circuit.
    rewrite (add_bombs_gates_ge _ _ _ _ _ _ Hr Hlen Hs Hl3). simpl.
    apply add_measures_gates.
  - split; [exact Hrot|].
    rewrite (measured_ry_gates _ position (is_ry_bomb_gates ships row)).
    apply Nat.ltb_lt in Hp. rewrite Hp, Hrot. reflexivity.
Qed.

Lemma rotation_with_shared_positions_witness :
  flip_fraction [3; 3; 0]%nat 3 = 1 / INR (0 + 1) + (1 / INR (1 + 1) + (0 + 0)) /\
  exists qc,
    build_circuit [[0; 0; 0; 2; 0]; [0; 0; 0; 0; 0]]%nat
      [[0; 1; 2]; [3; 3; 0]]%nat 1 = Some qc /\
    rotation_on qc 3 = INR 2 * flip_fraction [3; 3; 0]%nat 3 * PI /\
    measured qc 3
    = Some (Rsqr (sin (INR 2 * flip_fraction [3; 3; 0]%nat 3 * PI / 2))).
Proof.
  split; [reflexivity|].
  apply (rotation_with_shared_positions
           [[0; 0; 0; 2; 0]; [0; 0; 0; 0; 0]]%nat [[0; 1; 2]; [3; 3; 0]]%nat
           1 3 2 [0; 0; 0; 2; 0]%nat [3; 3; 0]%nat);
    try reflexivity; simpl; lia.
Defined.

(** ** Size of the circuit *)

Lemma length_position_gates (ships : list nat) (count position : nat) :
  length (position_gates ships count position)
  = (count * length (ship_gates ships position))%nat.
Proof.
  unfold position_gates, Py.range.
  assert (H : forall l : list nat,
    length (flat_map (fun _ => ship_gates ships position) l)
    = (length l * length (ship_gates ships position))%nat).
  { induction l as [|x l IH]; [reflexivity|].
    cbn [flat_map length]. rewrite length_app, IH. lia. }
  now rewrite H, length_seq.
Qed.

Lemma length_ship_gates (a b c position : nat) :
  length (ship_gates [a; b; c] position)
  = (Nat.b2n (Nat.eqb position a) + Nat.b2n (Nat.eqb position b)
     + Nat.b2n (Nat.eqb position c))%nat.
Proof.
  unfold ship_gates. simpl.
  destruct (Nat.eqb position a), (Nat.eqb position b), (Nat.eqb position c);
    reflexivity.
Qed.

Lemma count_at_position (r0 r1 r2 r3 r4 a : nat) :
  (r0 * Nat.b2n (Nat.eqb 0 a) + r1 * Nat.b2n (Nat.eqb 1 a)
   + r2 * Nat.b2n (Nat.eqb 2 a) + r3 * Nat.b2n (Nat.eqb 3 a)
   + r4 * Nat.b2n (Nat.eqb 4 a))%nat
  = nth a [r0; r1; r2; r3; r4] 0%nat.
Proof.
  do 5 (destruct a as [|a]; [simpl; lia|]). destruct a; simpl; lia.
Qed.

(** X6.  With a ledger row of five counts and three ships, the circuit
    of a player has the five measurements and one gate per bomb that
    landed on a ship: its length is 5 plus, for each of the three
    ships, the count of bombs on the ship's position (a ship placed
    outside the board counts for nothing). *)
Theorem circuit_length (bomb shipPos : list (list nat)) (player : nat)
    (row ships : list nat) :
  nth_error bomb (opponent player) = Some row ->
  length row = 5%nat ->
  nth_error shipPos player = Some ships ->
  length ships = 3%nat ->
  exists qc,
    build_circuit bomb shipPos player = Some qc /\
    length qc = (5 + list_sum (map (fun s => nth s row 0%nat) ships))%nat.
Proof.
  intros Hr Hlen Hs Hl3.
  exists (bomb_gates ships row ++ measure_gates).
  split; [now apply build_circuit_gates|].
  rewrite length_app. change (length measure_gates) with 5%nat.
  destruct ships as [|a [|b [|c [|? ?]]]]; try discriminate.
  destruct row as [|r0 [|r1 [|r2 [|r3 [|r4 [|? ?]]]]]]; try discriminate.
  unfold bomb_gates, Py.range. change (seq 0 5) with [0; 1; 2; 3; 4]%nat.
  cbn [flat_map]. rewrite !length_app, !length_position_gates,
    !length_ship_gates.
  change (list_sum (map (fun s => nth s [r0; r1; r2; r3; r4] 0%nat) [a; b; c]))
    with (nth a [r0; r1; r2; r3; r4] 0 + (nth b [r0; r1; r2; r3; r4] 0
          + (nth c [r0; r1; r2; r3; r4] 0 + 0)))%nat.
  rewrite <- (count_at_position r0 r1 r2 r3 r4 a),
          <- (count_at_position r0 r1 r2 r3 r4 b),
          <- (count_at_position r0 r1 r2 r3 r4 c).
  rewrite !Nat.mul_add_distr_l. cbn [nth length]. lia.
Qed.

Lemma circuit_length_witness :
  exists qc,
    build_circuit Demo.bomb_final Demo.shipPos 1 = Some qc /\
    length qc
    = (5 + list_sum (map (fun s => nth s [1; 0; 1; 2; 3]%nat 0%nat)
                       [2; 3; 4]%nat))%nat.
Proof.
  apply (circuit_length Demo.bomb_final Demo.shipPos 1
           [1; 0; 1; 2; 3]%nat [2; 3; 4]%nat); reflexivity.
Defined.

(** ** More bombs than a full flip *)

Lemma sin2_half_period (x : R) : sin2_half (x + 2 * PI) = sin2_half x.
Proof.
  unfold sin2_half. replace ((x + 2 * PI) / 2) with (x / 2 + PI) by lra.
  rewrite neg_sin. symmetry. apply Rsqr_neg.
Qed.

(** X7.  The bombs on a ship wrap around: twice the order index more
    bombs on its position rotate the qubit by a further 2 pi and leave
    the probability of reading it destroyed unchanged. *)
Theorem probability_periodic_in_count (bomb bomb' shipPos : list (list nat))
    (player ship position count : nat) :
  ledger_ok bomb = true ->
  ledger_ok bomb' = true ->
  placement_ok shipPos = true ->
  ship_at shipPos player ship = Some position ->
  attacks_on bomb (opponent player) position = Some count ->
  attacks_on bomb' (opponent player) position
  = Some (count + 2 * (ship + 1))%nat ->
  exists qc qc' p,
    build_circuit bomb shipPos player = Some qc /\
    build_circuit bomb' shipPos player = Some qc' /\
    rotation_on qc' position = rotation_on qc position + 2 * PI /\
    measured qc position = Some p /\
    measured qc' position = Some p.
Proof.
  intros Hl Hl' Hp Hs Ha Ha'.
  destruct (build_circuit_ship _ _ _ Hl Hp _ _ _ Hs Ha) as [qc [Hb [Hr Hm]]].
  destruct (build_circuit_ship _ _ _ Hl' Hp _ _ _ Hs Ha')
    as [qc' [Hb' [Hr' Hm']]].
  assert (Hrot : INR (count + 2 * (ship + 1)) * frac ship * PI
                 = INR count * frac ship * PI + 2 * PI).
  { rewrite plus_INR, mult_INR. change (INR 2) with 2.
    pose proof (rotation_full ship). lra. }
  exists qc, qc', (sin2_half (INR count * frac ship * PI)).
  repeat (split; [assumption|]). split.
  - rewrite Hr, Hr'. exact Hrot.
  - split; [assumption|]. rewrite Hm', Hrot. f_equal. apply sin2_half_period.
Qed.

Lemma probability_periodic_in_count_witness :
  exists qc qc' p,
    build_circuit Demo.bomb1 Demo.shipPos 0 = Some qc /\
    build_circuit [[0; 0; 0; 0; 0]; [0; 5; 0; 0; 0]]%nat Demo.shipPos 0
    = Some qc' /\
    rotation_on qc' 1 = rotation_on qc 1 + 2 * PI /\
    measured qc 1 = Some p /\
    measured qc' 1 = Some p.
Proof.
  apply (probability_periodic_in_count
           Demo.bomb1 [[0; 0; 0; 0; 0]; [0; 5; 0; 0; 0]]%nat Demo.shipPos
           0 1 1 1); reflexivity.
Defined.

Lemma sin2_half_strict (x y : R) :
  0 <= x -> x < y -> y <= PI -> sin2_half x < sin2_half y.
Proof.
  intros Hx Hxy Hy. unfold sin2_half. pose proof PI_RGT_0 as Hpi.
  apply Rsqr_incrst_1.
  - apply sin_increasing_1; lra.
  - apply sin_ge_0; lra.
  - apply sin_ge_0; lra.
Qed.

(** X8.  Up to the order index of a ship every further bomb on its
    position strictly raises the probability of reading it destroyed;
    so with fewer bombs than the order index the probability is below
    1: the first ship takes one bomb, the second two and the third
    three to be destroyed with certainty. *)
Theorem probability_strictly_increasing_up_to_order
    (bomb bomb' shipPos : list (list nat))
    (player ship position count count' : nat) :
  ledger_ok bomb = true ->
  ledger_ok bomb' = true ->
  placement_ok shipPos = true ->
  ship_at shipPos player ship = Some position ->
  attacks_on bomb (opponent player) position = Some count ->
  attacks_on bomb' (opponent player) position = Some count' ->
  (count < count')%nat ->
  (count' <= ship + 1)%nat ->
  exists p p',
    p_success bomb shipPos player position = Some p /\
    p_success bomb' shipPos player position = Some p' /\
    p < p' /\ p < 1.
Proof.
  intros Hl Hl' Hp Hs Ha Ha' Hlt Hord.
  exists (sin2_half (INR count * frac ship * PI)),
         (sin2_half (INR count' * frac ship * PI)).
  split; [now apply p_success_ship|]. split; [now apply p_success_ship|].
  assert (Hpos : 0 < frac ship * PI)
    by (apply Rmult_lt_0_compat; [apply frac_pos|apply PI_RGT_0]).
  assert (Hstrict : INR count * frac ship * PI < INR count' * frac ship * PI).
  { apply lt_INR in Hlt. rewrite !Rmult_assoc. nra. }
  assert (Hle : INR count' * frac ship * PI <= PI).
  { rewrite <- (rotation_full ship) at 2. now apply rotation_le. }
  assert (H : sin2_half (INR count * frac ship * PI)
              < sin2_half (INR count' * frac ship * PI)).
  { apply sin2_half_strict; [apply rotation_nonneg|assumption|assumption]. }
  split; [exact H|].
  pose proof (sin2_half_bounds (INR count' * frac ship * PI)). lra.
Qed.

Lemma probability_strictly_increasing_up_to_order_witness :
  exists p p',
    p_success [[0; 0; 0; 0; 1]; [0; 0; 0; 0; 0]]%nat Demo.shipPos 1 4 = Some p /\
    p_success [[0; 0; 0; 0; 2]; [0; 0; 0; 0; 0]]%nat Demo.shipPos 1 4 = Some p' /\
    p < p' /\ p < 1.
Proof.
  apply (probability_strictly_increasing_up_to_order
           [[0; 0; 0; 0; 1]; [0; 0; 0; 0; 0]]%nat
           [[0; 0; 0; 0; 2]; [0; 0; 0; 0; 0]]%nat Demo.shipPos
           1 2 4 1 2); try reflexivity; simpl; lia.
Defined.

(** ** The placement of the other player *)

(** X9.  The circuit of a player reads the placement only through the
    player's own row [shipPos[player]]: whatever the other player's
    ships are, the circuit (or the failure) is the same, and so is the
    probability read at every position. *)
Theorem other_placement_does_not_affect_grid (bomb shipPos shipPos' : list (list nat))
    (player : nat) :
  nth_error shipPos player = nth_error shipPos' player ->
  build_circuit bomb shipPos player = build_circuit bomb shipPos' player /\
  forall position,
    p_success bomb shipPos player position
    = p_success bomb shipPos' player position.
Proof.
  intros Hrow.
  assert (Hb : build_circuit bomb shipPos player
               = build_circuit bomb shipPos' player).
  { unfold build_circuit, add_bombs. now rewrite Hrow. }
  split; [exact Hb|].
  intros position. unfold p_success. now rewrite Hb.
Qed.

Lemma other_placement_does_not_affect_grid_witness :
  build_circuit Demo.bomb_final Demo.shipPos 0
  = build_circuit Demo.bomb_final [[0; 1; 2]; [0; 0; 9]]%nat 0 /\
  forall position,
    p_success Demo.bomb_final Demo.shipPos 0 position
    = p_success Demo.bomb_final [[0; 1; 2]; [0; 0; 9]]%nat 0 position.
Proof.
  apply (other_placement_does_not_affect_grid
           Demo.bomb_final Demo.shipPos [[0; 1; 2]; [0; 0; 9]]%nat 0).
  reflexivity.
Defined.

(** ** Both circuits of a round *)

(** X10.  On a ledger of two rows of five counts and a placement of two
    rows of three distinct ships, the loop over both players raises
    nothing: the list handed to [execute] holds exactly two circuits,
    player 1's first, each the circuit built for that player. *)
Theorem build_circuits_well_formed (bomb shipPos : list (list nat)) :
  length bomb = 2%nat ->
  ledger_ok bomb = true ->
  length shipPos = 2%nat ->
  placement_ok shipPos = true ->
  exists qc0 qc1,
    build_circuits bomb shipPos = Some [qc0; qc1] /\
    build_circuit bomb shipPos 0 = Some qc0 /\
    build_circuit bomb shipPos 1 = Some qc1.
Proof.
  intros Hb2 Hl Hs2 Hp.
  destruct bomb as [|r0 [|r1 [|? ?]]]; try discriminate.
  destruct shipPos as [|s0 [|s1 [|? ?]]]; try discriminate.
  pose proof (ledger_ok_row [r0; r1] 0 r0 Hl eq_refl) as Hr0.
  pose proof (ledger_ok_row [r0; r1] 1 r1 Hl eq_refl) as Hr1.
  destruct (placement_ok_fleet [s0; s1] 0 s0 Hp eq_refl) as [Hs0 _].
  destruct (placement_ok_fleet [s0; s1] 1 s1 Hp eq_refl) as [Hs1 _].
  pose proof (build_circuit_gates [r0; r1] [s0; s1] 0 r1 s0
                eq_refl Hr1 eq_refl Hs0) as H0.
  pose proof (build_circuit_gates [r0; r1] [s0; s1] 1 r0 s1
                eq_refl Hr0 eq_refl Hs1) as H1.
  exists (bomb_gates s0 r1 ++ measure_gates), (bomb_gates s1 r0 ++ measure_gates).
  split; [|split; assumption].
  unfold build_circuits, Py.range. simpl seq. cbn [Py.for_each].
  rewrite H0. cbn [Py.bind]. rewrite H1. reflexivity.
Qed.

Lemma build_circuits_well_formed_witness :
  exists qc0 qc1,
    build_circuits Demo.bomb_final Demo.shipPos = Some [qc0; qc1] /\
    build_circuit Demo.bomb_final Demo.shipPos 0 = Some qc0 /\
    build_circuit Demo.bomb_final Demo.shipPos 1 = Some qc1.
Proof.
  apply (build_circuits_well_formed Demo.bomb_final Demo.shipPos); reflexivity.
Defined.

(** ** What the report can depend on *)








